(** * facebook_scraper.py: the three stages and the orchestrator

    A shallow embedding of [login_to_facebook], [search_facebook],
    [extract_recent_posts] and [main] of [src/facebook_scraper.py].

    - A Python [str] is a Stdlib [string]; one [ascii] stands for one
      character (code points below 256).  [lower], [strip] and [in] are the
      Python operations restricted to that range.
    - The Playwright page, browser and element handles are a collaborator:
      an interface [Session] over an abstract world, every method of which
      may return or raise.
    - A stage is a computation in a state-and-exception monad [M]; the state
      carries the collaborator's world and the trace of the calls made.
    - Console output is left out, except the warning of the soft validation
      in [search_facebook].  The Playwright driver that [sync_playwright]
      starts and stops around the run is left out as well. *)

From Stdlib Require Import String Ascii List ZArith Lia Bool Arith.
Import ListNotations.
Local Open Scope string_scope.
Local Open Scope list_scope.

(** ** Python strings *)

Module PyStr.

(** [str.isspace] on one character below code point 256. *)
Definition is_space (c : ascii) : bool :=
  let n := nat_of_ascii c in
  (((9 <=? n) && (n <=? 13)) || ((28 <=? n) && (n <=? 32))
   || (n =? 133) || (n =? 160))%nat.

(** [str.lower] on one character below code point 256. *)
Definition lower_char (c : ascii) : ascii :=
  let n := nat_of_ascii c in
  if (((65 <=? n) && (n <=? 90))
      || ((192 <=? n) && (n <=? 222) && negb (n =? 215)))%nat
  then ascii_of_nat (n + 32) else c.

Fixpoint lower (s : string) : string :=
  match s with
  | EmptyString => EmptyString
  | String c s' => String (lower_char c) (lower s')
  end.

Fixpoint lstrip (s : string) : string :=
  match s with
  | EmptyString => EmptyString
  | String c s' => if is_space c then lstrip s' else s
  end.

Fixpoint rstrip (s : string) : string :=
  match s with
  | EmptyString => EmptyString
  | String c s' =>
      match rstrip s' with
      | EmptyString => if is_space c then EmptyString else String c EmptyString
      | r => String c r
      end
  end.

(** [s.strip()] *)
Definition strip (s : string) : string := rstrip (lstrip s).

(** [needle in hay] *)
Fixpoint contains (needle hay : string) : bool :=
  if String.prefix needle hay then true
  else match hay with
       | EmptyString => false
       | String _ hay' => contains needle hay'
       end.

(** Truth value of a [str]: non-empty. *)
Definition truthy (s : string) : bool :=
  match s with EmptyString => false | String _ _ => true end.

(** The double quote character, for selectors that contain it. *)
Definition dq : string := String (ascii_of_nat 34) EmptyString.

End PyStr.
Import PyStr.

(** ** The extraction filter (lines 270-283) *)

Definition common_non_post_phrases : list string :=
  [ "commented on this"; "shared this"; "reacted to this";
    "suggested for you"; "people you may know"; "is live now" ].

(** [len(post_text.strip()) < 75 and any(phrase in text_lower ...)] *)
Definition is_short_notification (post_text : string) : bool :=
  let text_lower := lower post_text in
  (String.length (strip post_text) <? 75)%nat
  && existsb (fun phrase => contains phrase text_lower) common_non_post_phrases.

(** The body of the [try] of the scan loop once [post_text] is read:
    the list [extracted_posts] after this element. *)
Definition consider_post (extracted_posts : list string) (post_text : string)
  : list string :=
  if truthy post_text && truthy (strip post_text) then
    if is_short_notification post_text then extracted_posts
    else extracted_posts ++ [strip post_text]
  else extracted_posts.

(** ** Exceptions, outcomes and the browser collaborator *)

(** The two handler classes of the source: [PlaywrightTimeoutError], and any
    other [Exception]. *)
Inductive exn : Type :=
| PlaywrightTimeoutError
| OtherException.

Inductive outcome (A : Type) : Type :=
| Ret (a : A)
| Raise (e : exn).
Arguments Ret {A} a.
Arguments Raise {A} e.

(** How a call ended: [None] when it returned. *)
Definition status {A} (r : outcome A) : option exn :=
  match r with Ret _ => None | Raise e => Some e end.

(** The Playwright objects the script drives, over a world [W] and element
    handles [H].  [page.url] is a property read; every method may raise. *)
Class Session (W H : Type) : Type := {
  chromium_launch : W -> outcome unit * W;
  browser_new_page : W -> outcome unit * W;
  browser_close : W -> outcome unit * W;
  set_extra_http_headers : W -> outcome unit * W;
  goto : string -> W -> outcome unit * W;
  wait_for_selector : string -> W -> outcome unit * W;
  wait_for_timeout : Z -> W -> outcome unit * W;
  query_selector : string -> W -> outcome (option H) * W;
  query_selector_all : string -> W -> outcome (list H) * W;
  fill : string -> string -> W -> outcome unit * W;
  press : string -> string -> W -> outcome unit * W;
  screenshot : string -> W -> outcome unit * W;
  url : W -> string;
  title : W -> outcome string * W;
  is_visible : H -> W -> outcome bool * W;
  click : H -> W -> outcome unit * W;
  element_fill : H -> string -> W -> outcome unit * W;
  tag_name : H -> W -> outcome string * W;
  inner_text : H -> W -> outcome string * W
}.

(** The calls a run makes, as the trace records them. *)
Inductive Call (H : Type) : Type :=
| CLaunch
| CNewPage
| CClose
| CHeaders
| CGoto (u : string)
| CWaitForSelector (selector : string)
| CWaitForTimeout (ms : Z)
| CQuerySelector (selector : string)
| CQuerySelectorAll (selector : string)
| CFill (selector text : string)
| CPress (selector key : string)
| CScreenshot (path : string)
| CTitle
| CIsVisible (el : H)
| CClick (el : H)
| CElementFill (el : H) (text : string)
| CTagName (el : H)
| CInnerText (el : H).
Arguments CLaunch {H}.
Arguments CNewPage {H}.
Arguments CClose {H}.
Arguments CHeaders {H}.
Arguments CGoto {H} u.
Arguments CWaitForSelector {H} selector.
Arguments CWaitForTimeout {H} ms.
Arguments CQuerySelector {H} selector.
Arguments CQuerySelectorAll {H} selector.
Arguments CFill {H} selector text.
Arguments CPress {H} selector key.
Arguments CScreenshot {H} path.
Arguments CTitle {H}.
Arguments CIsVisible {H} el.
Arguments CClick {H} el.
Arguments CElementFill {H} el text.
Arguments CTagName {H} el.
Arguments CInnerText {H} el.

(** A trace entry: a collaborator call with how it ended, or the warning that
    [search_facebook] prints when its soft validation does not hold. *)
Inductive Event (H : Type) : Type :=
| Called (c : Call H) (r : option exn)
| SearchWarning.
Arguments Called {H} c r.
Arguments SearchWarning {H}.

(** The state of a run. *)
Record St (W H : Type) : Type := mkSt { world : W; log : list (Event H) }.
Arguments mkSt {W H} world log.
Arguments world {W H} s.
Arguments log {W H} s.

(** ** The monad of a stage *)

Definition M (W H A : Type) : Type := St W H -> outcome A * St W H.

Definition ret {W H A} (a : A) : M W H A := fun s => (Ret a, s).

Definition raise {W H A} (e : exn) : M W H A := fun s => (Raise e, s).

Definition bind {W H A B} (m : M W H A) (k : A -> M W H B) : M W H B :=
  fun s =>
    match m s with
    | (Ret a, s') => k a s'
    | (Raise e, s') => (Raise e, s')
    end.

(** [try: body except ...: handler]; a handler that does not cover [e]
    re-raises it. *)
Definition try_except {W H A} (body : M W H A) (handler : exn -> M W H A)
  : M W H A :=
  fun s =>
    match body s with
    | (Ret a, s') => (Ret a, s')
    | (Raise e, s') => handler e s'
    end.

(** [try: body finally: fin]: [fin] runs however [body] ends; an exception of
    [fin] replaces the outcome of [body]. *)
Definition try_finally {W H A} (body : M W H A) (fin : M W H unit)
  : M W H A :=
  fun s =>
    match body s with
    | (r, s') =>
        match fin s' with
        | (Ret _, s'') => (r, s'')
        | (Raise e, s'') => (Raise e, s'')
        end
    end.

(** A collaborator call, recorded in the trace with its outcome. *)
Definition invoke {W H A} (c : Call H) (op : W -> outcome A * W) : M W H A :=
  fun s =>
    match op (world s) with
    | (r, w') => (r, mkSt w' (log s ++ [Called c (status r)]))
    end.

Definition warn {W H} : M W H unit :=
  fun s => (Ret tt, mkSt (world s) (log s ++ [SearchWarning])).

Declare Scope stage_scope.
Delimit Scope stage_scope with stage.
Notation "x <- m ;; k" := (bind m (fun x => k))
  (at level 61, m at next level, right associativity) : stage_scope.
Notation "m ;; k" := (bind m (fun _ => k))
  (at level 61, right associativity) : stage_scope.
Local Open Scope stage_scope.

Section Stages.

Context {W H : Type} {session : Session W H}.

Local Abbreviation Stage := (M W H).

(** *** The recorded calls *)

Definition page_wait_for_selector (selector : string) : Stage unit :=
  invoke (CWaitForSelector selector) (wait_for_selector selector).
Definition page_wait_for_timeout (ms : Z) : Stage unit :=
  invoke (CWaitForTimeout ms) (wait_for_timeout ms).
Definition page_query_selector (selector : string) : Stage (option H) :=
  invoke (CQuerySelector selector) (query_selector selector).
Definition page_query_selector_all (selector : string) : Stage (list H) :=
  invoke (CQuerySelectorAll selector) (query_selector_all selector).
Definition page_fill (selector text : string) : Stage unit :=
  invoke (CFill selector text) (fill selector text).
Definition page_press (selector key : string) : Stage unit :=
  invoke (CPress selector key) (press selector key).
Definition page_screenshot (path : string) : Stage unit :=
  invoke (CScreenshot path) (screenshot path).
Definition page_title : Stage string := invoke CTitle title.
Definition page_url : Stage string := fun s => (Ret (url (world s)), s).
Definition page_goto (u : string) : Stage unit := invoke (CGoto u) (goto u).
Definition page_set_extra_http_headers : Stage unit :=
  invoke CHeaders set_extra_http_headers.
Definition launch : Stage unit := invoke CLaunch chromium_launch.
Definition new_page : Stage unit := invoke CNewPage browser_new_page.
Definition close : Stage unit := invoke CClose browser_close.
Definition el_is_visible (el : H) : Stage bool :=
  invoke (CIsVisible el) (is_visible el).
Definition el_click (el : H) : Stage unit := invoke (CClick el) (click el).
Definition el_fill (el : H) (text : string) : Stage unit :=
  invoke (CElementFill el text) (element_fill el text).
Definition el_tag_name (el : H) : Stage string :=
  invoke (CTagName el) (tag_name el).
Definition el_inner_text (el : H) : Stage string :=
  invoke (CInnerText el) (inner_text el).

(** [el and el.is_visible()] for the result [el] of [query_selector]. *)
Definition found_and_visible (el : option H) : Stage bool :=
  match el with
  | None => ret false
  | Some el => el_is_visible el
  end.

(** *** [extract_recent_posts] (lines 220-297) *)

Definition post_container_selectors : list string :=
  [ "article";
    "div[role='article']";
    "div[data-pagelet^='FeedUnit']";
    "div[data-mcomponent='ServerFeedUnit']";
    "div[aria-posinset]" ].

(** [[el for el in elements_found if el.is_visible()]] *)
Fixpoint visible_only (elements_found : list H) : Stage (list H) :=
  match elements_found with
  | [] => ret []
  | el :: rest =>
      v <- el_is_visible el ;;
      vs <- visible_only rest ;;
      ret (if v then el :: vs else vs)
  end.

(** One turn of the selector loop (lines 242-257): the visible elements the
    selector yields; none when a call of the [try] times out. *)
Definition probe_selector (selector : string) : Stage (list H) :=
  try_except
    (page_wait_for_selector selector ;;
     elements_found <- page_query_selector_all selector ;;
     match elements_found with
     | [] => ret []
     | _ => visible_only elements_found
     end)
    (fun e =>
       match e with
       | PlaywrightTimeoutError => ret []
       | OtherException => raise OtherException
       end).

(** The selector loop (lines 238-257): [post_elements] when it ends. *)
Fixpoint find_post_elements (selectors : list string) : Stage (list H) :=
  match selectors with
  | [] => ret []
  | selector :: rest =>
      visible_elements <- probe_selector selector ;;
      match visible_elements with
      | [] => find_post_elements rest
      | _ => ret visible_elements
      end
  end.

(** The scan loop (lines 265-288), from index [i] on. *)
Fixpoint scan_posts (count i : Z) (post_elements : list H)
         (extracted_posts : list string) : Stage (list string) :=
  match post_elements with
  | [] => ret extracted_posts
  | post_element :: rest =>
      if (i >=? count)%Z then ret extracted_posts
      else
        extracted_posts' <-
          try_except
            (post_text <- el_inner_text post_element ;;
             ret (consider_post extracted_posts post_text))
            (fun _ => ret extracted_posts) ;;
        scan_posts count (i + 1) rest extracted_posts'
  end.

Definition extract_recent_posts (count : Z) : Stage (list string) :=
  post_elements <- find_post_elements post_container_selectors ;;
  match post_elements with
  | [] => page_screenshot "no_posts_found_on_page.png" ;; ret []
  | _ =>
      extracted_posts <- scan_posts count 0 post_elements [] ;;
      page_screenshot "post_extraction_attempt_done.png" ;;
      ret extracted_posts
  end.

(** *** [login_to_facebook] (lines 88-154) *)

(** ['input[name="email"]'] and ['input[name="pass"]'] *)
Definition email_selector : string := ("input[name=" ++ dq ++ "email" ++ dq ++ "]")%string.
Definition pass_selector : string := ("input[name=" ++ dq ++ "pass" ++ dq ++ "]")%string.

Definition login_button_selectors : list string :=
  [ ("button[name=" ++ dq ++ "login" ++ dq ++ "]")%string;
    ("button[type=" ++ dq ++ "submit" ++ dq ++ "]")%string;
    ("input[type=" ++ dq ++ "submit" ++ dq ++ "][value=" ++ dq ++ "Log In" ++ dq ++ "]")%string ].

(** The button loop (lines 112-119): [login_button_found] when it ends. *)
Fixpoint click_login_button (selectors : list string) : Stage bool :=
  match selectors with
  | [] => ret false
  | selector :: rest =>
      button <- page_query_selector selector ;;
      visible <- found_and_visible button ;;
      match button, visible with
      | Some button, true => el_click button ;; ret true
      | _, _ => click_login_button rest
      end
  end.

(** Lines 95-119: fill both fields and click the first visible button. *)
Definition login_fill_and_submit (email password : string) : Stage bool :=
  page_wait_for_selector email_selector ;;
  page_fill email_selector email ;;
  page_wait_for_selector pass_selector ;;
  page_fill pass_selector password ;;
  click_login_button login_button_selectors.

(** The condition of line 134: two queries, [is_visible] on the second
    result; [None.is_visible()] is an [AttributeError]. *)
Definition email_still_visible : Stage bool :=
  first <- page_query_selector email_selector ;;
  match first with
  | None => ret false
  | Some _ =>
      second <- page_query_selector email_selector ;;
      match second with
      | None => raise OtherException
      | Some el => el_is_visible el
      end
  end.

(** Lines 129-145: the classification of the page after the submit. *)
Definition login_check : Stage bool :=
  u <- page_url ;;
  if contains "checkpoint" (lower u) then
    page_screenshot "login_failed_checkpoint.png" ;; ret false
  else
    still <- email_still_visible ;;
    if still then
      page_screenshot "login_failed_email_still_visible.png" ;; ret false
    else
      u <- page_url ;;
      if contains "login" (lower u)
         && negb (contains "home.php" (lower u))
         && negb (contains "search" (lower u))
      then page_screenshot "login_failed_still_on_login_page.png" ;; ret false
      else page_screenshot "login_success_evidence.png" ;; ret true.

(** The body of the [try] (lines 95-145). *)
Definition login_body (email password : string) : Stage bool :=
  login_button_found <- login_fill_and_submit email password ;;
  if negb login_button_found then
    page_screenshot "login_button_not_found.png" ;; ret false
  else
    page_wait_for_timeout 5000 ;;
    login_check.

Definition login_handler (e : exn) : Stage bool :=
  match e with
  | PlaywrightTimeoutError =>
      page_screenshot "login_timeout_error.png" ;; ret false
  | OtherException =>
      page_screenshot "login_generic_error.png" ;; ret false
  end.

Definition login_to_facebook (email password : string) : Stage bool :=
  try_except (login_body email password) login_handler.

(** *** [search_facebook] (lines 156-218) *)

Definition search_trigger_selectors : list string :=
  [ ("a[aria-label*=" ++ dq ++ "Search" ++ dq ++ "]")%string;
    ("button[aria-label*=" ++ dq ++ "Search" ++ dq ++ "]")%string;
    ("a[href*=" ++ dq ++ "/search/" ++ dq ++ "]")%string;
    ("button[data-testid*=" ++ dq ++ "search_input" ++ dq ++ "]")%string;
    ("input[type=" ++ dq ++ "search" ++ dq ++ "]")%string;
    ("input[name=" ++ dq ++ "q" ++ dq ++ "]")%string ].

(** ['input[type="search"], input[name="q"]'] *)
Definition default_search_field_selector : string :=
  ("input[type=" ++ dq ++ "search" ++ dq ++ "], input[name=" ++ dq ++ "q" ++ dq ++ "]")%string.

(** Lines 175-192, for a visible [trigger_element]: fill and submit. *)
Definition search_fill_and_submit (keyword selector : string)
           (trigger_element : H) : Stage unit :=
  tag <- el_tag_name trigger_element ;;
  search_field_actual_selector <-
    (if String.eqb tag "input" then
       el_fill trigger_element keyword ;; ret selector
     else
       el_click trigger_element ;;
       page_wait_for_timeout 2000 ;;
       page_fill default_search_field_selector keyword ;;
       ret default_search_field_selector) ;;
  page_screenshot "search_keyword_filled.png" ;;
  page_press search_field_actual_selector "Enter".

(** The trigger loop (lines 171-193): [search_interaction_done] when it
    ends. *)
Fixpoint search_interact (keyword : string) (selectors : list string)
  : Stage bool :=
  match selectors with
  | [] => ret false
  | selector :: rest =>
      trigger_element <- page_query_selector selector ;;
      visible <- found_and_visible trigger_element ;;
      match trigger_element, visible with
      | Some trigger_element, true =>
          search_fill_and_submit keyword selector trigger_element ;; ret true
      | _, _ => search_interact keyword rest
      end
  end.

(** Lines 206-208: the soft validation; [page.title()] is read only when the
    URL does not contain the keyword. *)
Definition search_soft_validation (keyword : string) : Stage unit :=
  u <- page_url ;;
  if negb (contains (lower keyword) (lower u)) then
    t <- page_title ;;
    if negb (contains (lower keyword) (lower t)) then warn else ret tt
  else ret tt.

(** Lines 200-209: after the submit. *)
Definition search_after_submit (keyword : string) : Stage bool :=
  page_wait_for_timeout 7000 ;;
  page_screenshot "search_results_page.png" ;;
  search_soft_validation keyword ;;
  ret true.

(** The body of the [try] (lines 163-209). *)
Definition search_body (keyword : string) : Stage bool :=
  search_interaction_done <- search_interact keyword search_trigger_selectors ;;
  if negb search_interaction_done then
    page_screenshot "search_trigger_not_found.png" ;; ret false
  else search_after_submit keyword.

Definition search_handler (e : exn) : Stage bool :=
  match e with
  | PlaywrightTimeoutError =>
      page_screenshot "search_timeout_error.png" ;; ret false
  | OtherException =>
      page_screenshot "search_generic_error.png" ;; ret false
  end.

Definition search_facebook (keyword : string) : Stage bool :=
  try_except (search_body keyword) search_handler.

(** *** [main] (lines 300-414) *)

Definition FB_EMAIL_PLACEHOLDER : string := "YOUR_EMAIL".
Definition FB_PASSWORD_PLACEHOLDER : string := "YOUR_PASSWORD".

(** [not v] for the result [v] of [os.environ.get]. *)
Definition unset_or_empty (v : option string) : bool :=
  match v with
  | None => true
  | Some s => negb (truthy s)
  end.

(** Lines 313-327: [(fb_email, fb_password, using_placeholders)]. *)
Definition load_credentials (FB_EMAIL FB_PASSWORD : option string)
  : string * string * bool :=
  match FB_EMAIL, FB_PASSWORD with
  | Some fb_email, Some fb_password =>
      if unset_or_empty FB_EMAIL || unset_or_empty FB_PASSWORD
      then (FB_EMAIL_PLACEHOLDER, FB_PASSWORD_PLACEHOLDER, true)
      else (fb_email, fb_password, false)
  | _, _ => (FB_EMAIL_PLACEHOLDER, FB_PASSWORD_PLACEHOLDER, true)
  end.

Definition cookie_banner_selectors : list string :=
  [ "button[data-cookiebanner='accept_button']";
    "//button[contains(text(), 'Allow all cookies')]";
    "//button[contains(text(), 'Accept All')]";
    "//button[contains(text(), 'Allow essential and optional cookies')]" ].

(** The cookie loop (lines 354-368): [cookie_banner_clicked] when it ends.
    The [try] covers the click and the screenshot after it ([time.sleep]
    between them calls no collaborator); its handler takes a screenshot of
    its own, outside the [try], and the loop goes on. *)
Fixpoint dismiss_cookie_banner (cookie_banner_clicked : bool)
         (selectors : list string) : Stage bool :=
  match selectors with
  | [] => ret cookie_banner_clicked
  | selector :: rest =>
      button <- page_query_selector selector ;;
      visible <- found_and_visible button ;;
      match button, visible with
      | Some button, true =>
          clicked <- try_except (el_click button ;; ret true)
                                (fun _ => ret false) ;;
          if clicked then
            shot <- try_except
                      (page_screenshot "cookie_consent_clicked.png" ;; ret true)
                      (fun _ => ret false) ;;
            if shot then ret true
            else
              page_screenshot "cookie_consent_click_error.png" ;;
              dismiss_cookie_banner true rest
          else
            page_screenshot "cookie_consent_click_error.png" ;;
            dismiss_cookie_banner cookie_banner_clicked rest
      | _, _ => dismiss_cookie_banner cookie_banner_clicked rest
      end
  end.

(** Lines 382-402: search and extraction after the login. *)
Definition main_after_login (login_successful : bool) : Stage unit :=
  if login_successful then
    search_successful <- search_facebook "Bkash" ;;
    if search_successful then
      _ <- extract_recent_posts 3 ;; ret tt
    else ret tt
  else ret tt.

(** Lines 338-370: headers, navigation and the cookie banner. *)
Definition main_prelude : Stage bool :=
  page_set_extra_http_headers ;;
  page_goto "https://m.facebook.com" ;;
  page_screenshot "facebook_home_page.png" ;;
  dismiss_cookie_banner false cookie_banner_selectors.

(** Lines 338-402: the [try] body once [page] is bound. *)
Definition main_steps (fb_email fb_password : string) : Stage unit :=
  _ <- main_prelude ;;
  login_successful <- login_to_facebook fb_email fb_password ;;
  main_after_login login_successful.

(** Lines 404-409: the two handlers; the screenshot is taken only when
    [page] is bound. *)
Definition main_handler (page_bound : bool) (e : exn) : Stage unit :=
  if page_bound then
    match e with
    | PlaywrightTimeoutError =>
        page_screenshot "main_global_timeout_error.png"
    | OtherException =>
        page_screenshot "main_global_generic_error.png"
    end
  else ret tt.

(** Lines 336-409: the [try] block and its handlers once [browser] is
    bound.  [page] is bound once [new_page] has returned. *)
Definition main_launched (fb_email fb_password : string) : Stage unit :=
  page_bound <- try_except (new_page ;; ret true)
                           (fun e => main_handler false e ;; ret false) ;;
  if page_bound then
    try_except (main_steps fb_email fb_password) (main_handler true)
  else ret tt.

(** Lines 331-414.  [browser] is bound once [launch] has returned; the
    [finally] closes the browser when it is bound. *)
Definition main_run (fb_email fb_password : string) : Stage unit :=
  browser_bound <- try_except (launch ;; ret true)
                              (fun e => main_handler false e ;; ret false) ;;
  if browser_bound then
    try_finally (main_launched fb_email fb_password) close
  else ret tt.

Definition main (FB_EMAIL FB_PASSWORD : option string) : Stage unit :=
  match load_credentials FB_EMAIL FB_PASSWORD with
  | (fb_email, fb_password, _) => main_run fb_email fb_password
  end.

End Stages.

(** * Vocabulary of the properties *)

(** No whitespace at either end. *)
Definition starts_with_space (s : string) : bool :=
  match s with
  | EmptyString => false
  | String c _ => is_space c
  end.

Fixpoint ends_with_space (s : string) : bool :=
  match s with
  | EmptyString => false
  | String c EmptyString => is_space c
  | String _ s' => ends_with_space s'
  end.

(** What the scan keeps of one text: the trimmed text, unless the text is
    empty once trimmed or is a short notification. *)
Definition kept (post_text : string) : option string :=
  if truthy post_text && truthy (strip post_text)
     && negb (is_short_notification post_text)
  then Some (strip post_text) else None.

(** What the scan keeps of one read: nothing when the read raised. *)
Definition kept_of (r : outcome string) : list string :=
  match r with
  | Ret post_text =>
      match kept post_text with Some t => [t] | None => [] end
  | Raise _ => []
  end.

(** A read the scan skips without looking at any filter: it raised, or the
    text is empty once trimmed. *)
Definition unreadable_or_blank (r : outcome string) : Prop :=
  match r with
  | Raise _ => True
  | Ret post_text => truthy (strip post_text) = false
  end.

(** A result string as the scan promises it: not empty, no whitespace at
    either end, fixed by [strip]. *)
Definition trimmed_nonempty (t : string) : Prop :=
  t <> EmptyString /\ strip t = t
  /\ starts_with_space t = false /\ ends_with_space t = false.

(** The selectors a trace entry probes: those of [wait_for_selector] and
    [query_selector_all]. *)
Definition probed_by {H} (ev : Event H) : list string :=
  match ev with
  | Called (CWaitForSelector selector) _ => [selector]
  | Called (CQuerySelectorAll selector) _ => [selector]
  | _ => []
  end.


(** The screenshots a trace holds, by path, with how each call ended. *)
Definition shot_by {H} (ev : Event H) : list (string * option exn) :=
  match ev with
  | Called (CScreenshot path) r => [(path, r)]
  | _ => []
  end.

Definition shots {H} (trace : list (Event H)) : list (string * option exn) :=
  flat_map shot_by trace.

Section Vocabulary.

Context {W H : Type} {session : Session W H}.

(** Reading the texts of [els] in order, each read recorded. *)
Fixpoint read_texts (els : list H) (s : St W H)
  : list (outcome string) * St W H :=
  match els with
  | [] => ([], s)
  | el :: rest =>
      match el_inner_text el s with
      | (r, s1) =>
          match read_texts rest s1 with
          | (rs, s2) => (r :: rs, s2)
          end
      end
  end.

(** [all_miss selectors s s']: probed in order from [s], every selector of
    [selectors] yields no visible element, and the run is then in [s']. *)
Inductive all_miss : list string -> St W H -> St W H -> Prop :=
| all_miss_nil s : all_miss [] s s
| all_miss_cons selector rest s s1 s2 :
    probe_selector selector s = (Ret [], s1) ->
    all_miss rest s1 s2 ->
    all_miss (selector :: rest) s s2.

(** [none_resolves selectors s s']: queried in order from [s], every
    selector of [selectors] finds no element or an element that is not
    visible, and the run is then in [s']. *)
Inductive none_resolves : list string -> St W H -> St W H -> Prop :=
| none_resolves_nil s : none_resolves [] s s
| none_resolves_absent selector rest s s1 s2 :
    page_query_selector selector s = (Ret None, s1) ->
    none_resolves rest s1 s2 ->
    none_resolves (selector :: rest) s s2
| none_resolves_hidden selector rest s s1 s2 s3 el :
    page_query_selector selector s = (Ret (Some el), s1) ->
    el_is_visible el s1 = (Ret false, s2) ->
    none_resolves rest s2 s3 ->
    none_resolves (selector :: rest) s s3.

(** [emits P m]: a run of [m] only adds entries to the trace, and each entry
    it adds satisfies [P]. *)
Definition emits {A} (P : Event H -> Prop) (m : M W H A) : Prop :=
  forall s, exists trace,
      log (snd (m s)) = log s ++ trace /\ Forall P trace.

End Vocabulary.

(** ** Vocabulary of the further properties *)

(** The calls of a probe: waits, multi-match queries, visibility checks. *)
Definition probe_only {H} (ev : Event H) : Prop :=
  match ev with
  | Called (CWaitForSelector _) _ => True
  | Called (CQuerySelectorAll _) _ => True
  | Called (CIsVisible _) _ => True
  | _ => False
  end.

(** The calls [extract_recent_posts] may make: it waits for and queries the
    container selectors, checks visibility, reads texts and takes its two
    screenshots. *)
Definition reads_only {H} (ev : Event H) : Prop :=
  match ev with
  | Called (CWaitForSelector selector) _ =>
      In selector post_container_selectors
  | Called (CQuerySelectorAll selector) _ =>
      In selector post_container_selectors
  | Called (CIsVisible _) _ => True
  | Called (CInnerText _) _ => True
  | Called (CScreenshot path) _ =>
      path = "no_posts_found_on_page.png"
      \/ path = "post_extraction_attempt_done.png"
  | _ => False
  end.

(** A text the scan appends: not blank, and long or free of noise phrases. *)
Definition acceptable (post_text : string) : Prop :=
  strip post_text <> EmptyString
  /\ ((75 <= String.length (strip post_text))%nat
      \/ forall phrase, In phrase common_non_post_phrases ->
                        contains phrase (lower post_text) = false).

(** The screenshot that goes with a result of [login_to_facebook]. *)
Definition login_label (result : bool) (path : string) : Prop :=
  if result then path = "login_success_evidence.png"
  else In path [ "login_button_not_found.png";
                 "login_failed_checkpoint.png";
                 "login_failed_email_still_visible.png";
                 "login_failed_still_on_login_page.png";
                 "login_timeout_error.png";
                 "login_generic_error.png" ].

(** The screenshot that goes with a failure of [search_facebook]. *)
Definition search_failure_label (path : string) : Prop :=
  In path [ "search_trigger_not_found.png";
            "search_timeout_error.png";
            "search_generic_error.png" ].

(** A trace that ends with a screenshot which returned and whose path fits
    the result. *)
Definition ends_with_shot {H} (label : bool -> string -> Prop)
           (result : bool) (trace : list (Event H)) : Prop :=
  exists before path,
    trace = before ++ [Called (CScreenshot path) None]
    /\ label result path.


(** The calls [login_to_facebook] may make with [email] and [password]: each
    is typed into its own field and nowhere else; no key is pressed, no
    navigation started, nothing closed. *)
Definition login_call {H} (email password : string) (ev : Event H) : Prop :=
  match ev with
  | Called (CFill selector text) _ =>
      (selector = email_selector /\ text = email)
      \/ (selector = pass_selector /\ text = password)
  | Called (CWaitForSelector selector) _ =>
      selector = email_selector \/ selector = pass_selector
  | Called (CQuerySelector selector) _ =>
      In selector login_button_selectors \/ selector = email_selector
  | Called (CWaitForTimeout ms) _ => ms = 5000%Z
  | Called (CIsVisible _) _ => True
  | Called (CClick _) _ => True
  | Called (CScreenshot _) _ => True
  | _ => False
  end.

(** The calls [search_facebook] may make with [keyword]: only the keyword
    is typed, only Enter is pressed. *)
Definition search_call {H} (keyword : string) (ev : Event H) : Prop :=
  match ev with
  | Called (CFill selector text) _ =>
      selector = default_search_field_selector /\ text = keyword
  | Called (CElementFill _ text) _ => text = keyword
  | Called (CPress selector key) _ =>
      key = "Enter"
      /\ (In selector search_trigger_selectors
          \/ selector = default_search_field_selector)
  | Called (CQuerySelector selector) _ =>
      In selector search_trigger_selectors
  | Called (CWaitForTimeout ms) _ => ms = 2000%Z \/ ms = 7000%Z
  | Called (CIsVisible _) _ => True
  | Called (CTagName _) _ => True
  | Called (CClick _) _ => True
  | Called (CScreenshot _) _ => True
  | Called CTitle _ => True
  | SearchWarning => True
  | _ => False
  end.

(** The calls of a loop over single-match queries that clicks nothing. *)
Definition query_only {H} (ev : Event H) : Prop :=
  match ev with
  | Called (CQuerySelector _) _ => True
  | Called (CIsVisible _) _ => True
  | _ => False
  end.

(** A trace of [search_facebook] that fits its result when the result is
    [False]: it ends with one of the three failure screenshots. *)
Definition failed_after_shot {H} (result : bool) (trace : list (Event H))
  : Prop :=
  result = false ->
  ends_with_shot (fun _ path => search_failure_label path) result trace.

(** The elements whose text a trace reads, in the order of the reads. *)
Definition text_read_by {H} (ev : Event H) : list H :=
  match ev with
  | Called (CInnerText el) _ => [el]
  | _ => []
  end.

Definition texts_read {H} (trace : list (Event H)) : list H :=
  flat_map text_read_by trace.

(** The elements a trace clicks, in the order of the clicks. *)
Definition clicked_by {H} (ev : Event H) : list H :=
  match ev with
  | Called (CClick el) _ => [el]
  | _ => []
  end.

Definition clicks {H} (trace : list (Event H)) : list H :=
  flat_map clicked_by trace.

(** The keys a trace presses, with their selectors, in order. *)
Definition pressed_by {H} (ev : Event H) : list (string * string) :=
  match ev with
  | Called (CPress selector key) _ => [(selector, key)]
  | _ => []
  end.

Definition presses {H} (trace : list (Event H)) : list (string * string) :=
  flat_map pressed_by trace.

(** [subseq xs ys]: [xs] is [ys] with some elements left out. *)
Inductive subseq {A : Type} : list A -> list A -> Prop :=
| subseq_nil : subseq [] []
| subseq_keep x xs ys : subseq xs ys -> subseq (x :: xs) (x :: ys)
| subseq_drop y xs ys : subseq xs ys -> subseq xs (y :: ys).

Section FurtherVocabulary.

Context {W H : Type} {session : Session W H}.

(** [visible_run els s kept s']: asked in order from [s], the elements of
    [els] that report visible are [kept], the others report hidden, and the
    run is then in [s']. *)
Inductive visible_run : list H -> St W H -> list H -> St W H -> Prop :=
| visible_run_nil s : visible_run [] s [] s
| visible_run_keep el rest s s1 kept s2 :
    el_is_visible el s = (Ret true, s1) ->
    visible_run rest s1 kept s2 ->
    visible_run (el :: rest) s (el :: kept) s2
| visible_run_drop el rest s s1 kept s2 :
    el_is_visible el s = (Ret false, s1) ->
    visible_run rest s1 kept s2 ->
    visible_run (el :: rest) s kept s2.

(** [yields m R]: a value that a run of [m] returns satisfies [R]. *)
Definition yields {A} (m : M W H A) (R : A -> Prop) : Prop :=
  forall s a s', m s = (Ret a, s') -> R a.

(** [at_most f n m]: a run of [m] adds at most [n] of the entries that [f]
    picks out. *)
Definition at_most {A X} (f : Event H -> list X) (n : nat) (m : M W H A)
  : Prop :=
  forall s, exists trace,
      log (snd (m s)) = log s ++ trace
      /\ (length (flat_map f trace) <= n)%nat.

(** [returns_with Q m]: when a run of [m] returns [b], the trace it added
    satisfies [Q b]. *)
Definition returns_with (Q : bool -> list (Event H) -> Prop)
           (m : M W H bool) : Prop :=
  forall s b s',
    m s = (Ret b, s') ->
    exists trace, log s' = log s ++ trace /\ Q b trace.

End FurtherVocabulary.

(** ** Vocabulary of the selector loop and of the handlers *)

(** The screenshot a handler of [login_to_facebook] takes for [e]. *)
Definition login_handler_shot (e : exn) : string :=
  match e with
  | PlaywrightTimeoutError => "login_timeout_error.png"
  | OtherException => "login_generic_error.png"
  end.


Section ResolverVocabulary.

Context {W H : Type} {session : Session W H}.





End ResolverVocabulary.
(** ** A scripted browser

    A collaborator given by a table: the page never changes, a selector
    matches the elements the table lists for it, and the table says which
    waits, fills and screenshots raise.  As with Playwright, an element
    handle has no [tag_name] method: the call of line 176 is an
    [AttributeError], whatever the tag a node records. *)

Module Scripted.

Record Node : Type := mkNode {
  n_tag : string;
  n_visible : bool;
  n_text : outcome string
}.

Record Page : Type := mkPage {
  p_url : string;
  p_title : string;
  p_dom : list (string * list Node);
  p_wait : string -> option exn;
  p_fill : string -> option exn;
  p_shot : string -> option exn
}.

Definition answer (r : option exn) : outcome unit :=
  match r with None => Ret tt | Some e => Raise e end.

Fixpoint matches (dom : list (string * list Node)) (selector : string)
  : list Node :=
  match dom with
  | [] => []
  | (sel, nodes) :: rest =>
      if String.eqb sel selector then nodes else matches rest selector
  end.

(** [wait_for_selector(selector, state="visible")] on a page at rest: it
    times out unless a matching element is visible. *)
Definition wait_visible (dom : list (string * list Node)) (selector : string)
  : option exn :=
  if existsb n_visible (matches dom selector) then None
  else Some PlaywrightTimeoutError.

#[export] Instance scripted : Session Page Node := {|
  chromium_launch := fun w => (Ret tt, w);
  browser_new_page := fun w => (Ret tt, w);
  browser_close := fun w => (Ret tt, w);
  set_extra_http_headers := fun w => (Ret tt, w);
  goto := fun _ w => (Ret tt, w);
  wait_for_selector := fun selector w => (answer (p_wait w selector), w);
  wait_for_timeout := fun _ w => (Ret tt, w);
  query_selector := fun selector w => (Ret (hd_error (matches (p_dom w) selector)), w);
  query_selector_all := fun selector w => (Ret (matches (p_dom w) selector), w);
  fill := fun selector _ w => (answer (p_fill w selector), w);
  press := fun _ _ w => (Ret tt, w);
  screenshot := fun path w => (answer (p_shot w path), w);
  url := p_url;
  title := fun w => (Ret (p_title w), w);
  is_visible := fun el w => (Ret (n_visible el), w);
  click := fun _ w => (Ret tt, w);
  element_fill := fun _ _ w => (Ret tt, w);
  tag_name := fun _ w => (Raise OtherException, w);
  inner_text := fun el w => (n_text el, w)
|}.

(** A page of the table [dom] on which nothing but a wait can fail. *)
Definition page_of (u t : string) (dom : list (string * list Node)) : Page :=
  mkPage u t dom (wait_visible dom) (fun _ => None) (fun _ => None).

(** The start of a run on [p]. *)
Definition start (p : Page) : St Page Node := mkSt p [].

Definition post (text : string) : Node := mkNode "article" true (Ret text).

(** Scenario C: five visible containers; the first two are short and hold a
    noise phrase, the last three are long. *)
Definition item1 : string := "Alice commented on this".
Definition item2 : string := "Bob shared this".
Definition item3 : string :=
  "bKash now lets you pay your electricity bill from the app in three taps, try it today".
Definition item4 : string :=
  "Send money to any bKash number without charge this weekend, see the offer page for terms".
Definition item5 : string :=
  "New bKash agent points opened in Sylhet and Rajshahi this month, find the nearest one".

Definition scenario_C : Page :=
  page_of "https://m.facebook.com/search/top/?q=Bkash" "Bkash - Search"
    [ ("article", [post item1; post item2; post item3; post item4; post item5]) ].

(** Scenario A: the first selector matches nothing, the second has two
    visible matches (and a hidden one), the third has five. *)
Definition hidden (text : string) : Node := mkNode "div" false (Ret text).

Definition scenario_A : Page :=
  page_of "https://m.facebook.com/search/top/?q=Bkash" "Bkash - Search"
    [ ("div[role='article']", [post item3; hidden item1; post item4]);
      ("div[data-pagelet^='FeedUnit']",
       [post item1; post item2; post item3; post item4; post item5]) ].

(** Scenario B: the login form is still there after the submit. *)
Definition input (text : string) : Node := mkNode "input" true (Ret text).
Definition button (text : string) : Node := mkNode "button" true (Ret text).

Definition login_form : list (string * list Node) :=
  [ (email_selector, [input EmptyString]);
    (pass_selector, [input EmptyString]);
    (("button[name=" ++ dq ++ "login" ++ dq ++ "]")%string, [button "Log In"]) ].

Definition scenario_B : Page :=
  page_of "https://m.facebook.com/login.php" "Log in to Facebook" login_form.

(** A page whose search field is visible; neither its URL nor its title
    holds the keyword after the submit. *)
Definition scenario_search : Page :=
  page_of "https://m.facebook.com/home.php" "Facebook"
    [ (("input[name=" ++ dq ++ "q" ++ dq ++ "]")%string, [input EmptyString]) ].




(** A page whose every wait raises an error that is not a timeout (the
    target has gone away, say); screenshots still work. *)
Definition scenario_crash : Page :=
  mkPage "https://m.facebook.com/search/top/?q=Bkash" "Bkash - Search" []
         (fun _ => Some OtherException) (fun _ => None) (fun _ => None).

(** An empty page on which every screenshot raises. *)
Definition scenario_no_snapshot : Page :=
  mkPage "https://m.facebook.com/" "Facebook" []
         (wait_visible []) (fun _ => None) (fun _ => Some OtherException).

(** Four visible containers: the text of the first cannot be read, the
    second is blank, the last two are long. *)
Definition broken : Node := mkNode "article" true (Raise OtherException).
Definition blank : Node := post "    ".

Definition scenario_skips : Page :=
  page_of "https://m.facebook.com/search/top/?q=Bkash" "Bkash - Search"
    [ ("article", [broken; blank; post item3; post item4]) ].

(** A text of 94 characters that holds the phrase [shared this]. *)
Definition long_noisy_text : string :=
  "  Rahim shared this: the new bKash cash-out rate starts on Sunday for every agent in Dhaka.  ".

(** Scenario D: a results page on which no container selector matches. *)
Definition scenario_D : Page :=
  page_of "https://m.facebook.com/search/top/?q=Bkash" "Bkash - Search" [].

(** A short text without any noise phrase. *)
Definition short_novel_text : string := "  bKash is down again?  ".




(** The two fields of the login form without any button. *)
Definition scenario_no_button : Page :=
  page_of "https://m.facebook.com/login.php" "Log in to Facebook"
    [ (email_selector, [input EmptyString]);
      (pass_selector, [input EmptyString]) ].

(** The scripted browser with two changes: every click ends as [clicks]
    says, and with [honour_shots] off every screenshot returns. *)
Definition scripted_variant (clicks : option exn) (honour_shots : bool)
  : Session Page Node := {|
  chromium_launch := fun w => (Ret tt, w);
  browser_new_page := fun w => (Ret tt, w);
  browser_close := fun w => (Ret tt, w);
  set_extra_http_headers := fun w => (Ret tt, w);
  goto := fun _ w => (Ret tt, w);
  wait_for_selector := fun selector w => (answer (p_wait w selector), w);
  wait_for_timeout := fun _ w => (Ret tt, w);
  query_selector := fun selector w => (Ret (hd_error (matches (p_dom w) selector)), w);
  query_selector_all := fun selector w => (Ret (matches (p_dom w) selector), w);
  fill := fun selector _ w => (answer (p_fill w selector), w);
  press := fun _ _ w => (Ret tt, w);
  screenshot := fun path w =>
    (if honour_shots then answer (p_shot w path) else Ret tt, w);
  url := p_url;
  title := fun w => (Ret (p_title w), w);
  is_visible := fun el w => (Ret (n_visible el), w);
  click := fun _ w => (answer clicks, w);
  element_fill := fun _ _ w => (Ret tt, w);
  tag_name := fun _ w => (Raise OtherException, w);
  inner_text := fun el w => (n_text el, w)
|}.

(** A browser whose screenshots always return. *)
Definition reliable : Session Page Node := scripted_variant None false.

(** A browser whose clicks always time out. *)
Definition stubborn : Session Page Node :=
  scripted_variant (Some PlaywrightTimeoutError) true.

(** A page with two cookie buttons, the second and the fourth of the list
    of [main]. *)
Definition scenario_cookies : Page :=
  page_of "https://m.facebook.com/" "Facebook"
    [ ("//button[contains(text(), 'Allow all cookies')]",
       [button "Allow all cookies"]);
      ("//button[contains(text(), 'Allow essential and optional cookies')]",
       [button "Allow essential and optional cookies"]) ].




(** Scenario B with a screenshot that fails: only the one of the visible
    email field, or every one. *)
Definition scenario_B_one_shot_fails : Page :=
  mkPage "https://m.facebook.com/login.php" "Log in to Facebook" login_form
         (wait_visible login_form) (fun _ => None)
         (fun path =>
            if String.eqb path "login_failed_email_still_visible.png"
            then Some OtherException else None).

Definition scenario_B_no_snapshot : Page :=
  mkPage "https://m.facebook.com/login.php" "Log in to Facebook" login_form
         (wait_visible login_form) (fun _ => None)
         (fun _ => Some OtherException).

End Scripted.
(** * Properties *)

Import Scripted.

(** ** Strings *)


Lemma rstrip_keeps_head (c : ascii) (s : string) :
  is_space c = false -> rstrip (String c s) = String c (rstrip s).
Proof.
  intros Hc. simpl. rewrite Hc. now destruct (rstrip s).
Qed.

Lemma lstrip_head (s : string) : starts_with_space (lstrip s) = false.
Proof.
  induction s as [|c s IH]; simpl; [reflexivity|].
  destruct (is_space c) eqn:Hc; [exact IH|]. simpl. exact Hc.
Qed.

Lemma lstrip_fixed (s : string) :
  starts_with_space s = false -> lstrip s = s.
Proof.
  destruct s as [|c s]; simpl; [reflexivity|]. now intros ->.
Qed.

Lemma rstrip_idempotent (s : string) : rstrip (rstrip s) = rstrip s.
Proof.
  induction s as [|c s IH]; simpl; [reflexivity|].
  destruct (rstrip s) as [|d r] eqn:Hr.
  - destruct (is_space c) eqn:Hc; simpl; [reflexivity|]. now rewrite Hc.
  - change (rstrip (String c (String d r))) with
      (match rstrip (String d r) with
       | EmptyString => if is_space c then EmptyString else String c EmptyString
       | r' => String c r'
       end).
    now rewrite IH.
Qed.

Lemma rstrip_end (s : string) : ends_with_space (rstrip s) = false.
Proof.
  induction s as [|c s IH]; simpl; [reflexivity|].
  destruct (rstrip s) as [|d r] eqn:Hr.
  - destruct (is_space c) eqn:Hc; simpl; [reflexivity|exact Hc].
  - exact IH.
Qed.

Lemma rstrip_start (s : string) :
  starts_with_space s = false -> starts_with_space (rstrip s) = false.
Proof.
  destruct s as [|c s]; [reflexivity|]. cbn [starts_with_space]. intros Hc.
  rewrite (rstrip_keeps_head _ _ Hc). exact Hc.
Qed.

Lemma strip_start (s : string) : starts_with_space (strip s) = false.
Proof. unfold strip. apply rstrip_start, lstrip_head. Qed.

Lemma strip_end (s : string) : ends_with_space (strip s) = false.
Proof. unfold strip. apply rstrip_end. Qed.

Lemma strip_idempotent (s : string) : strip (strip s) = strip s.
Proof.
  unfold strip. rewrite (lstrip_fixed (rstrip (lstrip s))).
  - apply rstrip_idempotent.
  - apply rstrip_start, lstrip_head.
Qed.

Lemma truthy_length (s : string) :
  truthy s = true <-> (0 < String.length s)%nat.
Proof. destruct s; simpl; split; intros; try lia; congruence. Qed.

Lemma truthy_not_empty (s : string) : truthy s = true <-> s <> EmptyString.
Proof. destruct s; simpl; split; intros; congruence. Qed.

Lemma rstrip_length (s : string) :
  (String.length (rstrip s) <= String.length s)%nat.
Proof.
  induction s as [|c s IH]; simpl; [lia|].
  destruct (rstrip s); [destruct (is_space c)|]; simpl in *; lia.
Qed.

Lemma lstrip_length (s : string) :
  (String.length (lstrip s) <= String.length s)%nat.
Proof.
  induction s as [|c s IH]; simpl; [lia|].
  destruct (is_space c); simpl; lia.
Qed.

Lemma strip_length (s : string) :
  (String.length (strip s) <= String.length s)%nat.
Proof.
  unfold strip. pose proof (rstrip_length (lstrip s)).
  pose proof (lstrip_length s). lia.
Qed.

(** ** The filter *)

Lemma is_short_notification_iff (post_text : string) :
  is_short_notification post_text = true <->
  (String.length (strip post_text) < 75)%nat /\
  exists phrase, In phrase common_non_post_phrases /\
                 contains phrase (lower post_text) = true.
Proof.
  unfold is_short_notification.
  rewrite andb_true_iff, Nat.ltb_lt, existsb_exists. reflexivity.
Qed.


Lemma consider_post_kept (extracted_posts : list string) (post_text : string) :
  consider_post extracted_posts post_text =
  extracted_posts ++ match kept post_text with Some t => [t] | None => [] end.
Proof.
  unfold consider_post, kept.
  destruct (truthy post_text && truthy (strip post_text)); simpl;
    [destruct (is_short_notification post_text); simpl|];
    now rewrite ?app_nil_r.
Qed.

(** C3. A text whose trimmed length is at least 75 is never dropped as a
    notification, whatever noise phrases it holds: the scan appends its
    trimmed text.  A text is dropped as a notification exactly when its
    trimmed length is below 75 and it holds one of the noise phrases. *)
Theorem long_text_never_rejected_as_noise
        (extracted_posts : list string) (post_text : string) :
  (75 <= String.length (strip post_text))%nat ->
  is_short_notification post_text = false
  /\ consider_post extracted_posts post_text
     = extracted_posts ++ [strip post_text]
  /\ forall t : string,
       is_short_notification t = true <->
       (String.length (strip t) < 75)%nat
       /\ exists phrase, In phrase common_non_post_phrases
                         /\ contains phrase (lower t) = true.
Proof.
  intros Hlen.
  assert (Hno : is_short_notification post_text = false).
  { unfold is_short_notification.
    apply andb_false_iff. left. apply Nat.ltb_ge. exact Hlen. }
  split; [exact Hno|]. split; [|exact is_short_notification_iff].
  unfold consider_post. rewrite Hno.
  assert (Hs : truthy (strip post_text) = true)
    by (apply truthy_length; lia).
  assert (Hp : truthy post_text = true).
  { apply truthy_length. pose proof (strip_length post_text). lia. }
  now rewrite Hp, Hs.
Qed.


Lemma long_text_never_rejected_as_noise_witness :
  (75 <= String.length (strip long_noisy_text))%nat
  /\ contains "shared this" (lower long_noisy_text) = true
  /\ is_short_notification long_noisy_text = false
  /\ consider_post [] long_noisy_text = [strip long_noisy_text].
Proof.
  split; [vm_compute; lia|]. split; [reflexivity|].
  pose proof (long_text_never_rejected_as_noise [] long_noisy_text) as H.
  destruct H as [H1 [H2 _]]; [vm_compute; lia|].
  split; [exact H1|exact H2].
Defined.

(** ** Traces *)

Section Traces.

Context {W H : Type} {session : Session W H}.

Lemma emits_ret {A} (P : Event H -> Prop) (a : A) : emits P (ret (W := W) a).
Proof. intros s. exists []. simpl. now rewrite app_nil_r. Qed.

Lemma emits_raise {A} (P : Event H -> Prop) (e : exn) :
  emits P (raise (W := W) (A := A) e).
Proof. intros s. exists []. simpl. now rewrite app_nil_r. Qed.

Lemma emits_page_url (P : Event H -> Prop) : emits P page_url.
Proof. intros s. exists []. simpl. now rewrite app_nil_r. Qed.

Lemma emits_invoke {A} (P : Event H -> Prop) (c : Call H)
      (op : W -> outcome A * W) :
  (forall r, P (Called c r)) -> emits P (invoke c op).
Proof.
  intros HP s. unfold invoke. destruct (op (world s)) as [r w'].
  exists [Called c (status r)]. simpl. split; [reflexivity|].
  constructor; [apply HP|constructor].
Qed.

Lemma emits_warn (P : Event H -> Prop) :
  P SearchWarning -> emits P (warn (W := W)).
Proof.
  intros HP s. exists [SearchWarning]. simpl. split; [reflexivity|].
  constructor; [exact HP|constructor].
Qed.

Lemma emits_bind {A B} (P : Event H -> Prop) (m : M W H A)
      (k : A -> M W H B) :
  emits P m -> (forall a, emits P (k a)) -> emits P (bind m k).
Proof.
  intros Hm Hk s. unfold bind. destruct (Hm s) as [t1 [E1 F1]].
  destruct (m s) as [[a|e] s1]; simpl in E1.
  - destruct (Hk a s1) as [t2 [E2 F2]]. exists (t1 ++ t2).
    rewrite E2, E1, app_assoc. split; [reflexivity|].
    apply Forall_app; now split.
  - exists t1. simpl. now split.
Qed.

Lemma emits_try_except {A} (P : Event H -> Prop) (body : M W H A)
      (handler : exn -> M W H A) :
  emits P body -> (forall e, emits P (handler e)) ->
  emits P (try_except body handler).
Proof.
  intros Hm Hk s. unfold try_except. destruct (Hm s) as [t1 [E1 F1]].
  destruct (body s) as [[a|e] s1]; simpl in E1.
  - exists t1. simpl. now split.
  - destruct (Hk e s1) as [t2 [E2 F2]]. exists (t1 ++ t2).
    rewrite E2, E1, app_assoc. split; [reflexivity|].
    apply Forall_app; now split.
Qed.

Lemma emits_try_finally {A} (P : Event H -> Prop) (body : M W H A)
      (fin : M W H unit) :
  emits P body -> emits P fin -> emits P (try_finally body fin).
Proof.
  intros Hm Hf s. unfold try_finally. destruct (Hm s) as [t1 [E1 F1]].
  destruct (body s) as [r s1]; simpl in E1.
  destruct (Hf s1) as [t2 [E2 F2]]. exists (t1 ++ t2).
  destruct (fin s1) as [[[]|e] s2]; simpl in *;
    rewrite E2, E1, app_assoc; (split; [reflexivity|]);
    apply Forall_app; now split.
Qed.

Lemma emits_weaken {A} (P Q : Event H -> Prop) (m : M W H A) :
  (forall ev, P ev -> Q ev) -> emits P m -> emits Q m.
Proof.
  intros HPQ Hm s. destruct (Hm s) as [t [E F]]. exists t.
  split; [exact E|]. eapply Forall_impl; eauto.
Qed.

End Traces.

(** Breaks a goal [emits P m] down along the structure of [m]. *)
Ltac emits_step :=
  first
    [ apply emits_ret
    | apply emits_raise
    | apply emits_page_url
    | apply emits_bind; [|intros]
    | apply emits_try_except; [|intros]
    | apply emits_try_finally
    | assumption
    | match goal with
      | |- emits _ (match ?x with _ => _ end) => destruct x
      | |- emits _ (if ?x then _ else _) => destruct x
      end ].

(** Stages already shown to only add entries to the trace. *)
Create HintDb stage_trace.

(** Settles [emits (fun _ => True) m] for a stage [m]. *)
Ltac emits_any :=
  repeat first
    [ solve [auto 1 with stage_trace nocore]
    | apply emits_invoke; intros; exact I
    | apply emits_warn; exact I
    | emits_step ].

(** ** The scan loop of [extract_recent_posts] *)

Section Scan.

Context {W H : Type} {session : Session W H}.

Lemma scan_posts_stop (count i : Z) (els : list H) (acc : list string)
      (s : St W H) :
  (count <= i)%Z -> scan_posts count i els acc s = (Ret acc, s).
Proof.
  intros Hi. destruct els as [|el rest]; simpl; [reflexivity|].
  destruct (Z.geb_spec i count); [reflexivity|lia].
Qed.

Lemma scan_posts_step (count i : Z) (el : H) (rest : list H)
      (acc : list string) (s : St W H) :
  (i < count)%Z ->
  scan_posts count i (el :: rest) acc s =
  match el_inner_text el s with
  | (r, s1) => scan_posts count (i + 1) rest (acc ++ kept_of r) s1
  end.
Proof.
  intros Hi. simpl. destruct (Z.geb_spec i count); [lia|].
  unfold bind at 1. unfold try_except, bind at 1.
  destruct (el_inner_text el s) as [[t|e] s1]; simpl.
  - now rewrite consider_post_kept.
  - now rewrite app_nil_r.
Qed.

(** The scan reads the first [count - i] elements of the list, whatever it
    keeps of them, and no other. *)
Lemma scan_posts_spec (count : Z) (els : list H) :
  forall (i : Z) (acc : list string) (s : St W H),
    scan_posts count i els acc s =
    match read_texts (firstn (Z.to_nat (count - i)) els) s with
    | (rs, s') => (Ret (acc ++ flat_map kept_of rs), s')
    end.
Proof.
  induction els as [|el rest IH]; intros i acc s.
  - rewrite firstn_nil. simpl. now rewrite app_nil_r.
  - destruct (Z_lt_le_dec i count) as [Hlt|Hge].
    + rewrite scan_posts_step by exact Hlt.
      replace (Z.to_nat (count - i)) with (S (Z.to_nat (count - (i + 1))))
        by lia.
      cbn [firstn read_texts].
      destruct (el_inner_text el s) as [r s1]. rewrite IH.
      destruct (read_texts _ s1) as [rs s2].
      cbn [flat_map]. now rewrite app_assoc.
    + rewrite scan_posts_stop by exact Hge.
      replace (Z.to_nat (count - i)) with 0%nat by lia.
      simpl. now rewrite app_nil_r.
Qed.

Lemma read_texts_length (els : list H) :
  forall s : St W H, length (fst (read_texts els s)) = length els.
Proof.
  induction els as [|el rest IH]; intros s; simpl; [reflexivity|].
  destruct (el_inner_text el s) as [r s1]. specialize (IH s1).
  destruct (read_texts rest s1) as [rs s2]. simpl in *. now rewrite IH.
Qed.

Lemma kept_of_length (rs : list (outcome string)) :
  (length (flat_map kept_of rs) <= length rs)%nat.
Proof.
  induction rs as [|r rs IH]; simpl; [lia|].
  rewrite length_app.
  assert (length (kept_of r) <= 1)%nat.
  { destruct r as [t|e]; simpl; [destruct (kept t)|]; simpl; lia. }
  lia.
Qed.

Lemma kept_trimmed (post_text t : string) :
  kept post_text = Some t -> trimmed_nonempty t.
Proof.
  unfold kept. intros Hk.
  destruct (truthy post_text && truthy (strip post_text)
            && negb (is_short_notification post_text)) eqn:Hc;
    [|discriminate].
  injection Hk as <-.
  apply andb_true_iff in Hc. destruct Hc as [Hc _].
  apply andb_true_iff in Hc. destruct Hc as [_ Hc].
  repeat split.
  - now apply truthy_not_empty.
  - apply strip_idempotent.
  - apply strip_start.
  - apply strip_end.
Qed.

Lemma kept_of_trimmed (rs : list (outcome string)) :
  Forall trimmed_nonempty (flat_map kept_of rs).
Proof.
  induction rs as [|r rs IH]; simpl; [constructor|].
  apply Forall_app. split; [|exact IH].
  destruct r as [t|e]; simpl; [|constructor].
  destruct (kept t) as [x|] eqn:Hk; constructor; [|constructor].
  eapply kept_trimmed; eauto.
Qed.

(** The scan returns, and what it returns fits under the cap and is
    trimmed. *)
Lemma scan_posts_returns (count : Z) (els : list H) (s : St W H) :
  exists r s',
    scan_posts count 0 els [] s = (Ret r, s')
    /\ (length r <= Z.to_nat count)%nat
    /\ Forall trimmed_nonempty r.
Proof.
  rewrite scan_posts_spec. rewrite Z.sub_0_r.
  pose proof (read_texts_length (firstn (Z.to_nat count) els) s) as Hlen.
  destruct (read_texts _ s) as [rs s']. simpl in Hlen.
  exists (flat_map kept_of rs), s'. split; [reflexivity|]. split.
  - pose proof (kept_of_length rs). rewrite length_firstn in Hlen. lia.
  - apply kept_of_trimmed.
Qed.

(** What [extract_recent_posts] does once the selector loop has ended. *)
Lemma extract_recent_posts_after_loop (count : Z) (s s1 : St W H)
      (els : list H) :
  find_post_elements post_container_selectors s = (Ret els, s1) ->
  extract_recent_posts count s =
  match els with
  | [] =>
      match page_screenshot "no_posts_found_on_page.png" s1 with
      | (Ret _, s2) => (Ret [], s2)
      | (Raise e, s2) => (Raise e, s2)
      end
  | _ =>
      match scan_posts count 0 els [] s1 with
      | (Ret r, s2) =>
          match page_screenshot "post_extraction_attempt_done.png" s2 with
          | (Ret _, s3) => (Ret r, s3)
          | (Raise e, s3) => (Raise e, s3)
          end
      | (Raise e, s2) => (Raise e, s2)
      end
  end.
Proof.
  intros Hf. unfold extract_recent_posts. unfold bind at 1. rewrite Hf.
  destruct els as [|el rest]; [reflexivity|].
  unfold bind at 1. destruct (scan_posts _ _ _ _ s1) as [[r|e] s2];
    reflexivity.
Qed.

End Scan.

(** ** [extract_recent_posts]: the cap and the skipped elements *)

Section Cap.

Context {W H : Type} {session : Session W H}.

Lemma extract_recent_posts_result (count : Z) (s s' : St W H)
      (r : list string) :
  extract_recent_posts count s = (Ret r, s') ->
  (length r <= Z.to_nat count)%nat /\ Forall trimmed_nonempty r.
Proof.
  intros Hx.
  destruct (find_post_elements post_container_selectors s)
    as [[els|e] s1] eqn:Hf.
  - rewrite (extract_recent_posts_after_loop count s s1 els Hf) in Hx.
    destruct els as [|el rest].
    + destruct (page_screenshot _ s1) as [[[]|e] s2]; [|discriminate].
      injection Hx as <- _. simpl. split; [lia|constructor].
    + destruct (scan_posts_returns count (el :: rest) s1)
        as [r0 [s2 [Hs [Hlen Htrim]]]].
      rewrite Hs in Hx.
      destruct (page_screenshot _ s2) as [[[]|e] s3]; [|discriminate].
      injection Hx as <- _. now split.
  - unfold extract_recent_posts in Hx. unfold bind at 1 in Hx.
    rewrite Hf in Hx. discriminate.
Qed.

(** C4. For a cap [count] that is a count (not negative): whatever
    [extract_recent_posts] returns has at most [count] items, however many
    containers resolved; and once containers have resolved the scan always
    returns, with as many items as it kept, so that the call returns that
    list, short or not, as soon as the closing screenshot returns. *)
Theorem extract_never_exceeds_count (count : Z) (s : St W H) :
  (0 <= count)%Z ->
  (forall r s',
      extract_recent_posts count s = (Ret r, s') ->
      (Z.of_nat (length r) <= count)%Z)
  /\ (forall els s1,
         find_post_elements post_container_selectors s = (Ret els, s1) ->
         els <> [] ->
         exists r s2,
           scan_posts count 0 els [] s1 = (Ret r, s2)
           /\ (Z.of_nat (length r) <= count)%Z
           /\ forall s3,
               page_screenshot "post_extraction_attempt_done.png" s2
               = (Ret tt, s3) ->
               extract_recent_posts count s = (Ret r, s3)).
Proof.
  intros Hc. split.
  - intros r s' Hx.
    destruct (extract_recent_posts_result count s s' r Hx) as [Hlen _]. lia.
  - intros els s1 Hf Hne.
    destruct (scan_posts_returns count els s1) as [r [s2 [Hs [Hlen _]]]].
    exists r, s2. split; [exact Hs|]. split; [lia|].
    intros s3 Hshot.
    rewrite (extract_recent_posts_after_loop count s s1 els Hf).
    destruct els as [|el rest]; [congruence|].
    now rewrite Hs, Hshot.
Qed.

(** C1, as the code has it.  Once containers have resolved,
    [extract_recent_posts] reads the first [count] of them and no other, and
    returns what the filter keeps of those reads, in order: an element the
    filter rejects has used one of the [count] positions. *)
Theorem extract_reads_only_first_count (count : Z) (s s1 s2 s3 : St W H)
        (els : list H) (rs : list (outcome string)) :
  find_post_elements post_container_selectors s = (Ret els, s1) ->
  els <> [] ->
  read_texts (firstn (Z.to_nat count) els) s1 = (rs, s2) ->
  page_screenshot "post_extraction_attempt_done.png" s2 = (Ret tt, s3) ->
  extract_recent_posts count s = (Ret (flat_map kept_of rs), s3).
Proof.
  intros Hf Hne Hr Hshot.
  rewrite (extract_recent_posts_after_loop count s s1 els Hf).
  destruct els as [|el rest]; [congruence|].
  rewrite scan_posts_spec, Z.sub_0_r, Hr. simpl. now rewrite Hshot.
Qed.

(** C10. An element whose text cannot be read, or is empty once trimmed, is
    skipped: the scan goes on with the next element, one position further
    and with the same list.  The scan never raises, and every string that
    [extract_recent_posts] returns is non-empty and trimmed. *)
Theorem unreadable_or_blank_elements_are_skipped (count : Z) :
  (forall i el rest acc (s s1 : St W H) r,
      (i < count)%Z ->
      el_inner_text el s = (r, s1) ->
      unreadable_or_blank r ->
      scan_posts count i (el :: rest) acc s
      = scan_posts count (i + 1) rest acc s1)
  /\ (forall els (s : St W H),
         exists r s',
           scan_posts count 0 els [] s = (Ret r, s')
           /\ Forall trimmed_nonempty r)
  /\ (forall (s s' : St W H) r,
         extract_recent_posts count s = (Ret r, s') ->
         Forall trimmed_nonempty r).
Proof.
  split; [|split].
  - intros i el rest acc s s1 r Hi Hr Hskip.
    rewrite scan_posts_step by exact Hi. rewrite Hr.
    replace (kept_of r) with (@nil string); [now rewrite app_nil_r|].
    destruct r as [t|e]; simpl in *; [|reflexivity].
    unfold kept. rewrite Hskip, andb_false_r. reflexivity.
  - intros els s.
    destruct (scan_posts_returns count els s) as [r [s' [Hs [_ Ht]]]].
    now exists r, s'.
  - intros s s' r Hx.
    now destruct (extract_recent_posts_result count s s' r Hx).
Qed.

End Cap.

Lemma extract_never_exceeds_count_witness :
  fst (extract_recent_posts 3 (start scenario_C)) = Ret [item3]
  /\ (Z.of_nat (length [item3]) <= 3)%Z.
Proof.
  split; [vm_compute; reflexivity|].
  refine (proj1 (extract_never_exceeds_count 3 (start scenario_C) _)
                [item3] (snd (extract_recent_posts 3 (start scenario_C))) _).
  - lia.
  - vm_compute; reflexivity.
Defined.

(** Scenario C on the code: the scan stops after the third container, and
    only the third text is returned. *)
Lemma extract_reads_only_first_count_witness :
  fst (extract_recent_posts 3 (start scenario_C)) = Ret [item3].
Proof.
  rewrite (extract_reads_only_first_count 3 (start scenario_C)
             (snd (find_post_elements post_container_selectors
                     (start scenario_C)))
             (snd (read_texts [post item1; post item2; post item3]
                     (snd (find_post_elements post_container_selectors
                             (start scenario_C)))))
             (snd (extract_recent_posts 3 (start scenario_C)))
             [post item1; post item2; post item3; post item4; post item5]
             [Ret item1; Ret item2; Ret item3]).
  - reflexivity.
  - vm_compute; reflexivity.
  - discriminate.
  - vm_compute; reflexivity.
  - vm_compute; reflexivity.
Defined.

(** C1, scenario C of the specification: five containers resolve, the filter
    rejects the first two and keeps the last three, and the call with
    [count = 3] returns one item, not three. *)
Lemma scenario_C_returns_one_item :
  fst (find_post_elements post_container_selectors (start scenario_C))
  = Ret [post item1; post item2; post item3; post item4; post item5]
  /\ kept item1 = None /\ kept item2 = None
  /\ kept item3 = Some item3 /\ kept item4 = Some item4
  /\ kept item5 = Some item5
  /\ fst (extract_recent_posts 3 (start scenario_C)) = Ret [item3]
  /\ fst (extract_recent_posts 3 (start scenario_C))
     <> Ret [item3; item4; item5].
Proof.
  repeat split; try (vm_compute; reflexivity).
  vm_compute. discriminate.
Qed.

Lemma unreadable_or_blank_elements_are_skipped_witness :
  scan_posts 3 0 [broken; blank; post item3; post item4] []
             (start scenario_skips)
  = scan_posts 3 2 [post item3; post item4] []
               (snd (read_texts [broken; blank] (start scenario_skips)))
  /\ fst (extract_recent_posts 3 (start scenario_skips)) = Ret [item3].
Proof.
  destruct (unreadable_or_blank_elements_are_skipped
              (session := scripted) 3) as [Hskip _].
  split; [|vm_compute; reflexivity].
  rewrite (Hskip 0%Z broken _ _ (start scenario_skips)
             (snd (el_inner_text broken (start scenario_skips)))
             (Raise OtherException));
    [|lia|reflexivity|exact I].
  rewrite (Hskip 1%Z blank _ _ _
             (snd (read_texts [broken; blank] (start scenario_skips)))
             (Ret "    "));
    [reflexivity|lia|reflexivity|reflexivity].
Defined.

(** ** The selector loop of [extract_recent_posts] *)

Section Resolver.

Context {W H : Type} {session : Session W H}.

Lemma visible_only_emits (P : Event H -> Prop) (els : list H) :
  (forall el r, P (Called (CIsVisible el) r)) ->
  emits P (visible_only els).
Proof.
  intros HP. induction els as [|el rest IH]; simpl.
  - apply emits_ret.
  - repeat emits_step. apply emits_invoke. intros r. apply HP.
Qed.

(** A probe of [selector] waits for, queries and inspects [selector] alone. *)
Lemma probe_selector_emits (selector : string) :
  emits (fun ev => forall x, In x (probed_by ev) -> x = selector)
        (probe_selector selector).
Proof.
  unfold probe_selector, page_wait_for_selector, page_query_selector_all.
  repeat first
    [ apply visible_only_emits; intros el r x []
    | apply emits_invoke; intros r x [<-|[]]; reflexivity
    | emits_step ].
Qed.




(** When every selector misses, the loop ends with no element. *)
Lemma find_post_elements_all_miss (selectors : list string)
      (s s1 : St W H) :
  all_miss selectors s s1 ->
  find_post_elements selectors s = (Ret [], s1).
Proof.
  induction 1 as [s|selector rest s s1 s2 Hp Hrest IH]; simpl.
  - reflexivity.
  - unfold bind. now rewrite Hp.
Qed.


(** *** What a probe does, call by call *)

Lemma visible_only_run (els : list H) :
  forall (s s' : St W H) (kept : list H),
    visible_only els s = (Ret kept, s') -> visible_run els s kept s'.
Proof.
  induction els as [|el rest IH]; intros s s' kept Hv; simpl in Hv.
  - injection Hv as <- <-. constructor.
  - unfold bind at 1 in Hv.
    destruct (el_is_visible el s) as [[v|e] s1] eqn:Hel; [|discriminate].
    unfold bind at 1 in Hv.
    destruct (visible_only rest s1) as [[vs|e] s2] eqn:Hrest;
      [|discriminate].
    injection Hv as <- <-. specialize (IH s1 s2 vs Hrest).
    destruct v; [eapply visible_run_keep|eapply visible_run_drop]; eauto.
Qed.









End Resolver.



(** ** [login_to_facebook]: the email field is still visible *)

Section Login.

Context {W H : Type} {session : Session W H}.

(** The [try] body when the form was submitted and the page then shows the
    email field: all that is left is the screenshot of that failure. *)
Lemma login_body_email_still_visible
      (email password : string) (s0 sA s1 s2 s3 s4 : St W H)
      (first second : H) :
  login_fill_and_submit email password s0 = (Ret true, sA) ->
  page_wait_for_timeout 5000 sA = (Ret tt, s1) ->
  contains "checkpoint" (lower (url (world s1))) = false ->
  page_query_selector email_selector s1 = (Ret (Some first), s2) ->
  page_query_selector email_selector s2 = (Ret (Some second), s3) ->
  el_is_visible second s3 = (Ret true, s4) ->
  login_body email password s0 =
  match page_screenshot "login_failed_email_still_visible.png" s4 with
  | (Ret _, s5) => (Ret false, s5)
  | (Raise e, s5) => (Raise e, s5)
  end.
Proof.
  intros Hsub Hwait Hcp Hq1 Hq2 Hvis.
  unfold login_body. unfold bind at 1. rewrite Hsub. cbn [negb].
  unfold bind at 1. rewrite Hwait.
  unfold login_check. unfold bind at 1. unfold page_url at 1.
  rewrite Hcp. unfold bind at 1. unfold email_still_visible.
  unfold bind at 1. rewrite Hq1. unfold bind at 1. rewrite Hq2, Hvis.
  unfold bind. destruct (page_screenshot _ s4) as [[[]|e] s5]; reflexivity.
Qed.

(** C5, as the code has it.  After a submit that found its button, if the
    URL does not hold [checkpoint] and the email field is found by both
    queries and is visible, then [login_to_facebook] takes the screenshot
    [login_failed_email_still_visible.png].  When that call returns, the
    stage returns [False] right after it.  When that call raises, the
    handler of the stage takes its own screenshot, and when that one returns
    the stage returns [False] right after it.  In no case does the stage
    return [True]. *)
Theorem email_still_visible_is_a_failed_login
        (email password : string) (s0 sA s1 s2 s3 s4 : St W H)
        (first second : H) :
  login_fill_and_submit email password s0 = (Ret true, sA) ->
  page_wait_for_timeout 5000 sA = (Ret tt, s1) ->
  contains "checkpoint" (lower (url (world s1))) = false ->
  page_query_selector email_selector s1 = (Ret (Some first), s2) ->
  page_query_selector email_selector s2 = (Ret (Some second), s3) ->
  el_is_visible second s3 = (Ret true, s4) ->
  (forall s5,
      page_screenshot "login_failed_email_still_visible.png" s4
      = (Ret tt, s5) ->
      login_to_facebook email password s0 = (Ret false, s5)
      /\ log s5
         = log s4
           ++ [Called (CScreenshot "login_failed_email_still_visible.png")
                      None])
  /\ (forall e s5 s6,
         page_screenshot "login_failed_email_still_visible.png" s4
         = (Raise e, s5) ->
         page_screenshot (login_handler_shot e) s5 = (Ret tt, s6) ->
         login_to_facebook email password s0 = (Ret false, s6)
         /\ log s6
            = log s4
              ++ [Called (CScreenshot "login_failed_email_still_visible.png")
                         (Some e);
                  Called (CScreenshot (login_handler_shot e)) None])
  /\ fst (login_to_facebook email password s0) <> Ret true.
Proof.
  intros Hsub Hwait Hcp Hq1 Hq2 Hvis.
  pose proof (login_body_email_still_visible
                email password s0 sA s1 s2 s3 s4 first second
                Hsub Hwait Hcp Hq1 Hq2 Hvis) as Hbody.
  assert (Hlog : forall path (t t' : St W H) (r : outcome unit),
             page_screenshot path t = (r, t') ->
             log t' = log t ++ [Called (CScreenshot path) (status r)]).
  { intros path t t' r Hshot. unfold page_screenshot, invoke in Hshot.
    destruct (screenshot path (world t)) as [r0 w'].
    now injection Hshot as <- <-. }
  split; [|split].
  - intros s5 Hshot. rewrite Hshot in Hbody. split.
    + unfold login_to_facebook, try_except. now rewrite Hbody.
    + exact (Hlog _ _ _ _ Hshot).
  - intros e s5 s6 Hshot Hshot2. rewrite Hshot in Hbody. split.
    + unfold login_to_facebook, try_except. rewrite Hbody.
      unfold login_handler, bind.
      destruct e; simpl in Hshot2; now rewrite Hshot2.
    + rewrite (Hlog _ _ _ _ Hshot2), (Hlog _ _ _ _ Hshot).
      now rewrite <- app_assoc.
  - unfold login_to_facebook, try_except. rewrite Hbody.
    destruct (page_screenshot _ s4) as [[[]|e] s5]; [simpl; congruence|].
    unfold login_handler, bind.
    destruct e;
      match goal with
      | |- context [page_screenshot ?p s5] =>
          destruct (page_screenshot p s5) as [[[]|e'] s6]
      end; simpl; congruence.
Qed.

End Login.

(** Scenario B: the form is filled and submitted, the email field is still
    visible, and the call returns [False] after the one screenshot
    [login_failed_email_still_visible.png]. *)
Lemma email_still_visible_is_a_failed_login_witness :
  fst (login_to_facebook "user@example.com" "secret" (start scenario_B))
  = Ret false
  /\ shots (log (snd (login_to_facebook "user@example.com" "secret"
                        (start scenario_B))))
     = [("login_failed_email_still_visible.png", None)].
Proof.
  pose (s0 := start scenario_B).
  pose (sA := snd (login_fill_and_submit "user@example.com" "secret" s0)).
  pose (s1 := snd (page_wait_for_timeout 5000 sA)).
  pose (s2 := snd (page_query_selector email_selector s1)).
  pose (s3 := snd (page_query_selector email_selector s2)).
  pose (s4 := snd (el_is_visible (input EmptyString) s3)).
  pose (s5 := snd (page_screenshot "login_failed_email_still_visible.png" s4)).
  destruct (email_still_visible_is_a_failed_login
              "user@example.com" "secret" s0 sA s1 s2 s3 s4
              (input EmptyString) (input EmptyString)) as [Hfalse _];
    try (vm_compute; reflexivity).
  destruct (Hfalse s5) as [Hlogin _]; [vm_compute; reflexivity|].
  fold s0. rewrite Hlogin. split; [reflexivity|vm_compute; reflexivity].
Defined.

(** C5, against the specification.  Scenario B with a screenshot that
    fails: the URL holds no [checkpoint] and the email field is still
    visible after the submit.  When only the screenshot of that failure
    raises, the stage returns [False] after [login_generic_error.png], the
    screenshot of another failure; when every screenshot raises, the stage
    does not return at all. *)
Lemma email_still_visible_with_a_failing_screenshot :
  (contains "checkpoint" (lower (p_url scenario_B_one_shot_fails)) = false
   /\ fst (email_still_visible (start scenario_B_one_shot_fails)) = Ret true
   /\ fst (login_to_facebook "user@example.com" "secret"
                             (start scenario_B_one_shot_fails)) = Ret false
   /\ shots (log (snd (login_to_facebook "user@example.com" "secret"
                         (start scenario_B_one_shot_fails))))
      = [("login_failed_email_still_visible.png", Some OtherException);
         ("login_generic_error.png", None)])
  /\ (contains "checkpoint" (lower (p_url scenario_B_no_snapshot)) = false
      /\ fst (email_still_visible (start scenario_B_no_snapshot)) = Ret true
      /\ fst (login_to_facebook "user@example.com" "secret"
                                (start scenario_B_no_snapshot))
         = Raise OtherException
      /\ fst (login_to_facebook "user@example.com" "secret"
                                (start scenario_B_no_snapshot))
         <> Ret false).
Proof.
  repeat split; try (vm_compute; reflexivity).
  vm_compute. discriminate.
Qed.

(** ** [search_facebook]: the soft validation and the failures *)

Section Search.

Context {W H : Type} {session : Session W H}.




End Search.



(** ** [main]: the browser is closed *)

Section Orchestrator.

Context {W H : Type} {session : Session W H}.

(** Every stage only adds entries to the trace. *)
Lemma found_and_visible_appends (el : option H) :
  emits (fun _ => True) (found_and_visible el).
Proof. unfold found_and_visible. emits_any. Qed.
#[local] Hint Resolve found_and_visible_appends : stage_trace.

Lemma click_login_button_appends (selectors : list string) :
  emits (fun _ => True) (click_login_button selectors).
Proof. induction selectors as [|selector rest IH]; simpl; emits_any. Qed.
#[local] Hint Resolve click_login_button_appends : stage_trace.

Lemma login_to_facebook_appends (email password : string) :
  emits (fun _ => True) (login_to_facebook email password).
Proof.
  unfold login_to_facebook, login_body, login_fill_and_submit, login_check,
    email_still_visible, login_handler.
  emits_any.
Qed.
#[local] Hint Resolve login_to_facebook_appends : stage_trace.

Lemma search_interact_appends (keyword : string) (selectors : list string) :
  emits (fun _ => True) (search_interact keyword selectors).
Proof.
  induction selectors as [|selector rest IH]; simpl;
    unfold search_fill_and_submit; emits_any.
Qed.
#[local] Hint Resolve search_interact_appends : stage_trace.

Lemma search_facebook_appends (keyword : string) :
  emits (fun _ => True) (search_facebook keyword).
Proof.
  unfold search_facebook, search_body, search_after_submit,
    search_soft_validation, search_handler.
  emits_any.
Qed.
#[local] Hint Resolve search_facebook_appends : stage_trace.

Lemma find_post_elements_appends (selectors : list string) :
  emits (fun _ => True) (find_post_elements selectors).
Proof.
  induction selectors as [|selector rest IH]; simpl.
  - apply emits_ret.
  - apply emits_bind.
    + eapply emits_weaken; [|apply probe_selector_emits]. intros; exact I.
    + intros [|el els]; [exact IH|apply emits_ret].
Qed.
#[local] Hint Resolve find_post_elements_appends : stage_trace.

Lemma scan_posts_appends (count : Z) (els : list H) :
  forall i acc, emits (fun _ => True) (scan_posts count i els acc).
Proof.
  induction els as [|el rest IH]; intros i acc; simpl.
  - apply emits_ret.
  - destruct (i >=? count)%Z; [apply emits_ret|].
    apply emits_bind; [emits_any|intros; apply IH].
Qed.
#[local] Hint Resolve scan_posts_appends : stage_trace.

Lemma extract_recent_posts_appends (count : Z) :
  emits (fun _ => True) (extract_recent_posts count).
Proof. unfold extract_recent_posts. emits_any. Qed.
#[local] Hint Resolve extract_recent_posts_appends : stage_trace.

Lemma dismiss_cookie_banner_appends (selectors : list string) :
  forall clicked,
    emits (fun _ => True) (dismiss_cookie_banner clicked selectors).
Proof.
  induction selectors as [|selector rest IH]; intros clicked; simpl;
    emits_any.
Qed.
#[local] Hint Resolve dismiss_cookie_banner_appends : stage_trace.

Lemma main_after_login_appends (login_successful : bool) :
  emits (fun _ => True) (main_after_login login_successful).
Proof. unfold main_after_login. emits_any. Qed.
#[local] Hint Resolve main_after_login_appends : stage_trace.

Lemma main_steps_appends (fb_email fb_password : string) :
  emits (fun _ => True) (main_steps fb_email fb_password).
Proof. unfold main_steps, main_prelude. emits_any. Qed.
#[local] Hint Resolve main_steps_appends : stage_trace.

Lemma main_handler_appends (page_bound : bool) (e : exn) :
  emits (fun _ => True) (main_handler page_bound e).
Proof. unfold main_handler. emits_any. Qed.
#[local] Hint Resolve main_handler_appends : stage_trace.

Lemma main_launched_appends (fb_email fb_password : string) :
  emits (fun _ => True) (main_launched fb_email fb_password).
Proof. unfold main_launched, new_page. emits_any. Qed.

Lemma main_run_launch (fb_email fb_password : string) (s : St W H) :
  main_run fb_email fb_password s =
  match launch s with
  | (Ret _, s1) => try_finally (main_launched fb_email fb_password) close s1
  | (Raise e, s1) => (Ret tt, s1)
  end.
Proof.
  unfold main_run. unfold bind at 1. unfold try_except at 1.
  unfold bind at 1. destruct (launch s) as [[[]|e] s1]; reflexivity.
Qed.

(** C8. The trace of a run of [main] has one of two shapes.  Either the
    launch raised, and the run made no other call; or the launch returned,
    and the last call of the run is [browser.close()], whatever happened in
    between and however the run ends. *)
Theorem browser_is_closed_on_every_exit
        (FB_EMAIL FB_PASSWORD : option string) (s : St W H) :
  (exists e,
      log (snd (main FB_EMAIL FB_PASSWORD s))
      = log s ++ [Called CLaunch (Some e)])
  \/ (exists between r,
         log (snd (main FB_EMAIL FB_PASSWORD s))
         = log s ++ Called CLaunch None :: between ++ [Called CClose r]).
Proof.
  unfold main.
  destruct (load_credentials FB_EMAIL FB_PASSWORD)
    as [[fb_email fb_password] using_placeholders].
  rewrite main_run_launch. unfold launch, invoke.
  destruct (chromium_launch (world s)) as [[[]|e] w1]; cbn [status].
  - right.
    remember (mkSt w1 (log s ++ [Called CLaunch None])) as s1 eqn:Hs1.
    unfold try_finally.
    destruct (main_launched_appends fb_email fb_password s1)
      as [between [E _]].
    destruct (main_launched fb_email fb_password s1) as [r s2].
    simpl in E. unfold close, invoke.
    destruct (browser_close (world s2)) as [rc w3].
    exists between, (status rc).
    assert (Hlog : log s2 ++ [Called CClose (status rc)]
                   = log s ++ Called CLaunch None
                       :: between ++ [Called CClose (status rc)]).
    { rewrite E, Hs1. simpl. now rewrite <- !app_assoc. }
    destruct rc as [[]|e]; simpl; exact Hlog.
  - left. exists e. reflexivity.
Qed.

End Orchestrator.

(** ** [main]: the placeholder credentials *)

Section Credentials.

Context {W H : Type} {session : Session W H}.

Lemma bind_returned {A B} (m : M W H A) (k : A -> M W H B)
      (s s1 : St W H) (a : A) :
  m s = (Ret a, s1) -> bind m k s = k a s1.
Proof. intros Hm. unfold bind. now rewrite Hm. Qed.

Lemma try_except_returned {A} (body : M W H A) (handler : exn -> M W H A)
      (s s1 : St W H) (a : A) :
  body s = (Ret a, s1) -> try_except body handler s = (Ret a, s1).
Proof. intros Hm. unfold try_except. now rewrite Hm. Qed.

(** The trace after [bind m k] starts with the trace after [m]. *)
Lemma bind_extends {A B} (P : Event H -> Prop) (m : M W H A)
      (k : A -> M W H B) :
  (forall a, emits P (k a)) ->
  forall s, exists trace,
      log (snd (bind m k s)) = log (snd (m s)) ++ trace.
Proof.
  intros Hk s. unfold bind. destruct (m s) as [[a|e] s1]; simpl.
  - destruct (Hk a s1) as [t [E _]]. now exists t.
  - exists []. now rewrite app_nil_r.
Qed.

Lemma try_except_extends {A} (P : Event H -> Prop) (body : M W H A)
      (handler : exn -> M W H A) :
  (forall e, emits P (handler e)) ->
  forall s, exists trace,
      log (snd (try_except body handler s)) = log (snd (body s)) ++ trace.
Proof.
  intros Hh s. unfold try_except. destruct (body s) as [[a|e] s1]; simpl.
  - exists []. now rewrite app_nil_r.
  - destruct (Hh e s1) as [t [E _]]. now exists t.
Qed.

Lemma try_finally_extends {A} (P : Event H -> Prop) (body : M W H A)
      (fin : M W H unit) :
  emits P fin ->
  forall s, exists trace,
      log (snd (try_finally body fin s)) = log (snd (body s)) ++ trace.
Proof.
  intros Hf s. unfold try_finally. destruct (body s) as [r s1]; simpl.
  destruct (Hf s1) as [t [E _]]. exists t.
  destruct (fin s1) as [[[]|e] s2]; exact E.
Qed.

Lemma page_fill_log (selector text : string) (s : St W H) :
  exists r,
    log (snd (page_fill selector text s))
    = log s ++ [Called (CFill selector text) r].
Proof.
  unfold page_fill, invoke.
  destruct (fill selector text (world s)) as [r w']. now exists (status r).
Qed.

(** Once the browser is launched, the page is bound and the prelude has
    returned, the trace of the run extends the trace of the [try] body of
    [login_to_facebook] run from there. *)
Lemma main_run_reaches_login (fb_email fb_password : string)
      (s s1 s2 s3 : St W H) (b : bool) :
  launch s = (Ret tt, s1) ->
  new_page s1 = (Ret tt, s2) ->
  main_prelude s2 = (Ret b, s3) ->
  exists trace,
    log (snd (main_run fb_email fb_password s))
    = log (snd (login_body fb_email fb_password s3)) ++ trace.
Proof.
  intros Hl Hn Hp. rewrite main_run_launch, Hl.
  destruct (try_finally_extends (fun _ => True)
              (main_launched fb_email fb_password) close) with (s := s1)
    as [t1 E1].
  { unfold close. apply emits_invoke. intros; exact I. }
  rewrite E1. clear E1.
  assert (Hm : main_launched fb_email fb_password s1
               = try_except (main_steps fb_email fb_password)
                            (main_handler true) s2).
  { unfold main_launched.
    rewrite (bind_returned _ _ s1 s2 true); [reflexivity|].
    apply try_except_returned. now rewrite (bind_returned _ _ s1 s2 tt). }
  rewrite Hm. clear Hm.
  destruct (try_except_extends (fun _ => True)
              (main_steps fb_email fb_password) (main_handler true)
              (main_handler_appends true) s2) as [t2 E2].
  rewrite E2. clear E2.
  unfold main_steps. rewrite (bind_returned _ _ s2 s3 b Hp). cbv beta.
  destruct (bind_extends (fun _ => True)
              (login_to_facebook fb_email fb_password)
              (fun login_successful => main_after_login login_successful))
    with (s := s3) as [t3 E3].
  { intros a. unfold main_after_login.
    repeat first
      [ apply search_facebook_appends
      | apply extract_recent_posts_appends
      | emits_step ]. }
  rewrite E3. clear E3.
  unfold login_to_facebook.
  destruct (try_except_extends (fun _ => True)
              (login_body fb_email fb_password) login_handler) with (s := s3)
    as [t4 E4].
  { intros e. unfold login_handler.
    repeat first [ apply emits_invoke; intros; exact I | emits_step ]. }
  rewrite E4. exists (t4 ++ t3 ++ t2 ++ t1). now rewrite <- !app_assoc.
Qed.

(** The [try] body of [login_to_facebook] fills the email field with
    [email] once the wait for it has returned, and the password field with
    [password] once the wait for that one has returned. *)
Lemma login_body_fills (email password : string) (s3 s4 : St W H) :
  page_wait_for_selector email_selector s3 = (Ret tt, s4) ->
  (exists r rest,
      log (snd (login_body email password s3))
      = log s4 ++ Called (CFill email_selector email) r :: rest)
  /\ (forall s5 s6,
         page_fill email_selector email s4 = (Ret tt, s5) ->
         page_wait_for_selector pass_selector s5 = (Ret tt, s6) ->
         exists r rest,
           log (snd (login_body email password s3))
           = log s6 ++ Called (CFill pass_selector password) r :: rest).
Proof.
  intros Hw.
  assert (Hrest : forall found : bool,
             emits (fun _ : Event H => True)
                   (if negb found
                    then page_screenshot "login_button_not_found.png" ;;
                         ret false
                    else page_wait_for_timeout 5000 ;; login_check)).
  { intros found. unfold login_check, email_still_visible.
    repeat first [ apply emits_invoke; intros; exact I | emits_step ]. }
  destruct (bind_extends (fun _ => True)
              (login_fill_and_submit email password) _ Hrest s3)
    as [t1 E1].
  fold (login_body email password) in E1. unfold login_body at 1 in E1.
  split.
  - unfold login_body. rewrite E1. unfold login_fill_and_submit.
    rewrite (bind_returned _ _ s3 s4 tt Hw).
    destruct (bind_extends (fun _ => True)
                (page_fill email_selector email)
                (fun _ =>
                   page_wait_for_selector pass_selector ;;
                   page_fill pass_selector password ;;
                   click_login_button login_button_selectors))
      with (s := s4) as [t2 E2].
    { intros _.
      repeat first
        [ apply click_login_button_appends
        | apply emits_invoke; intros; exact I
        | emits_step ]. }
    rewrite E2. destruct (page_fill_log email_selector email s4) as [r Er].
    rewrite Er. exists r, (t2 ++ t1). now rewrite <- !app_assoc.
  - intros s5 s6 Hf Hw2. unfold login_body. rewrite E1.
    unfold login_fill_and_submit.
    rewrite (bind_returned _ _ s3 s4 tt Hw).
    rewrite (bind_returned _ _ s4 s5 tt Hf).
    rewrite (bind_returned _ _ s5 s6 tt Hw2).
    destruct (bind_extends (fun _ => True)
                (page_fill pass_selector password)
                (fun _ => click_login_button login_button_selectors))
      with (s := s6) as [t2 E2].
    { intros _. apply click_login_button_appends. }
    rewrite E2. destruct (page_fill_log pass_selector password s6) as [r Er].
    rewrite Er. exists r, (t2 ++ t1). now rewrite <- !app_assoc.
Qed.


End Credentials.


(** ** The stages and the errors of the collaborator *)

Section Handlers.

Context {W H : Type} {session : Session W H}.

(** The selector loop handles timeouts only: another error of the first
    wait leaves [extract_recent_posts]. *)
Lemma extract_recent_posts_wait_error (count : Z) (s s1 : St W H) :
  page_wait_for_selector "article" s = (Raise OtherException, s1) ->
  extract_recent_posts count s = (Raise OtherException, s1).
Proof.
  intros Hw. unfold extract_recent_posts. unfold bind at 1.
  cbn [post_container_selectors find_post_elements].
  unfold bind at 1. unfold probe_selector at 1, try_except.
  unfold bind at 1. now rewrite Hw.
Qed.

(** With a collaborator whose screenshots always return,
    [login_to_facebook] and [search_facebook] always return a boolean. *)
Lemma login_and_search_return (email password keyword : string) :
  (forall path (s : St W H), exists s', page_screenshot path s = (Ret tt, s')) ->
  forall s : St W H,
    (exists b s', login_to_facebook email password s = (Ret b, s'))
    /\ (exists b s', search_facebook keyword s = (Ret b, s')).
Proof.
  intros Hshot s. split.
  - unfold login_to_facebook, try_except.
    destruct (login_body email password s) as [[b|e] s1]; [now exists b, s1|].
    unfold login_handler, bind.
    destruct e;
      match goal with
      | |- context [page_screenshot ?p s1] =>
          destruct (Hshot p s1) as [s2 ->]
      end; now exists false, s2.
  - unfold search_facebook, try_except.
    destruct (search_body keyword s) as [[b|e] s1]; [now exists b, s1|].
    unfold search_handler, bind.
    destruct e;
      match goal with
      | |- context [page_screenshot ?p s1] =>
          destruct (Hshot p s1) as [s2 ->]
      end; now exists false, s2.
Qed.

End Handlers.

(** C7, on the code.  On a page whose waits raise an error that is not a
    timeout, [login_to_facebook] turns the error into [False] and a
    screenshot, and [extract_recent_posts], whose selector loop handles
    timeouts only, lets the same error out.  On a page whose screenshots
    raise, the error leaves all three stages: from the handlers of
    [login_to_facebook] and [search_facebook], and from the screenshot that
    [extract_recent_posts] takes when no container resolved. *)
Theorem collaborator_errors_leave_the_stages :
  (fst (login_to_facebook "user@example.com" "secret" (start scenario_crash))
   = Ret false
   /\ shots (log (snd (login_to_facebook "user@example.com" "secret"
                         (start scenario_crash))))
      = [("login_generic_error.png", None)])
  /\ fst (extract_recent_posts 3 (start scenario_crash))
     = Raise OtherException
  /\ fst (login_to_facebook "user@example.com" "secret"
                            (start scenario_no_snapshot))
     = Raise OtherException
  /\ fst (search_facebook "Bkash" (start scenario_no_snapshot))
     = Raise OtherException
  /\ fst (extract_recent_posts 3 (start scenario_no_snapshot))
     = Raise OtherException.
Proof.
  repeat split; vm_compute; reflexivity.
Qed.

(** * Further properties of the code *)

(** ** The filter: what is appended *)

Lemma strip_empty_of_empty (s : string) :
  truthy (strip s) = true -> truthy s = true.
Proof. destruct s; [discriminate|reflexivity]. Qed.

Lemma no_phrase_iff (text_lower : string) :
  existsb (fun phrase => contains phrase text_lower) common_non_post_phrases
  = false <->
  forall phrase, In phrase common_non_post_phrases ->
                 contains phrase text_lower = false.
Proof.
  split.
  - intros He phrase Hin.
    destruct (contains phrase text_lower) eqn:Hc; [|reflexivity].
    assert (Ht : existsb (fun phrase => contains phrase text_lower)
                         common_non_post_phrases = true)
      by (apply existsb_exists; eauto).
    congruence.
  - intros Hall.
    destruct (existsb _ common_non_post_phrases) eqn:He; [|reflexivity].
    apply existsb_exists in He. destruct He as [phrase [Hin Hc]].
    rewrite (Hall phrase Hin) in Hc. discriminate.
Qed.

(** X1. The scan appends the trimmed text of an element exactly when the
    text is not blank and is either long (75 characters or more once
    trimmed) or free of every noise phrase; otherwise it leaves the list as
    it is.  A short text with no noise phrase is kept. *)
Theorem consider_post_appends_iff_acceptable
        (extracted_posts : list string) (post_text : string) :
  (acceptable post_text ->
   consider_post extracted_posts post_text
   = extracted_posts ++ [strip post_text])
  /\ (~ acceptable post_text ->
      consider_post extracted_posts post_text = extracted_posts).
Proof.
  unfold acceptable, consider_post, is_short_notification. split.
  - intros [Hne Hok].
    apply truthy_not_empty in Hne. rewrite (strip_empty_of_empty _ Hne), Hne.
    cbn [andb]. destruct Hok as [Hlen|Hno].
    + apply Nat.ltb_ge in Hlen. now rewrite Hlen.
    + apply no_phrase_iff in Hno. rewrite Hno. now rewrite andb_false_r.
  - intros Hnot.
    destruct (truthy post_text && truthy (strip post_text)) eqn:Ht;
      [|reflexivity].
    apply andb_true_iff in Ht. destruct Ht as [_ Ht].
    destruct ((String.length (strip post_text) <? 75)%nat) eqn:Hlen;
      cbn [andb].
    + destruct (existsb _ common_non_post_phrases) eqn:He; [reflexivity|].
      exfalso. apply Hnot. split; [now apply truthy_not_empty|].
      right. now apply no_phrase_iff.
    + exfalso. apply Hnot. split; [now apply truthy_not_empty|].
      left. now apply Nat.ltb_ge.
Qed.

Lemma consider_post_appends_iff_acceptable_witness :
  (String.length (strip short_novel_text) < 75)%nat
  /\ consider_post [item3] short_novel_text
     = [item3; "bKash is down again?"]
  /\ consider_post [item3] item1 = [item3].
Proof.
  destruct (consider_post_appends_iff_acceptable [item3] short_novel_text)
    as [Hyes _].
  destruct (consider_post_appends_iff_acceptable [item3] item1)
    as [_ Hno].
  split; [vm_compute; lia|]. split.
  - rewrite Hyes; [reflexivity|]. split; [discriminate|]. right.
    intros phrase Hin. simpl in Hin.
    repeat (destruct Hin as [<-|Hin]; [reflexivity|]). destruct Hin.
  - apply Hno. intros [_ [Hlen|Hnone]].
    + vm_compute in Hlen. lia.
    + specialize (Hnone "commented on this" (or_introl eq_refl)).
      discriminate.
Defined.

(** ** [extract_recent_posts]: nothing found, no cap, no writes *)

Section ExtractionEdges.

Context {W H : Type} {session : Session W H}.

Lemma visible_only_probe_only (els : list H) :
  emits probe_only (visible_only els).
Proof. apply visible_only_emits. intros el r. exact I. Qed.

Lemma probe_selector_probe_only (selector : string) :
  emits probe_only (probe_selector selector).
Proof.
  unfold probe_selector, page_wait_for_selector, page_query_selector_all.
  repeat first
    [ apply visible_only_probe_only
    | apply emits_invoke; intros r; exact I
    | emits_step ].
Qed.

Lemma all_miss_probe_only (selectors : list string) (s s1 : St W H) :
  all_miss selectors s s1 ->
  exists probes, log s1 = log s ++ probes /\ Forall probe_only probes.
Proof.
  induction 1 as [s|selector rest s s1 s2 Hp Hrest IH].
  - exists []. split; [now rewrite app_nil_r|constructor].
  - destruct (probe_selector_probe_only selector s) as [t1 [E1 F1]].
    rewrite Hp in E1. simpl in E1. destruct IH as [t2 [E2 F2]].
    exists (t1 ++ t2). split; [now rewrite E2, E1, app_assoc|].
    apply Forall_app. now split.
Qed.

Lemma page_screenshot_log (path : string) (s s' : St W H) (r : outcome unit) :
  page_screenshot path s = (r, s') ->
  log s' = log s ++ [Called (CScreenshot path) (status r)].
Proof.
  unfold page_screenshot, invoke.
  destruct (screenshot path (world s)) as [r0 w']. now intros [= <- <-].
Qed.

(** X2. When every container selector misses, [extract_recent_posts]
    returns the empty list right after the screenshot
    [no_posts_found_on_page.png]: the run has only probed (no text is read),
    and that screenshot is its last call.  When containers did resolve, the
    last call of a run that returns is the other screenshot,
    [post_extraction_attempt_done.png]. *)
Theorem nothing_found_is_empty_with_its_own_screenshot
        (count : Z) (s : St W H) :
  (forall s1 s2,
      all_miss post_container_selectors s s1 ->
      page_screenshot "no_posts_found_on_page.png" s1 = (Ret tt, s2) ->
      extract_recent_posts count s = (Ret [], s2)
      /\ exists probes,
          log s2
          = log s ++ probes
            ++ [Called (CScreenshot "no_posts_found_on_page.png") None]
          /\ Forall probe_only probes)
  /\ (forall els s1 r s',
         find_post_elements post_container_selectors s = (Ret els, s1) ->
         els <> [] ->
         extract_recent_posts count s = (Ret r, s') ->
         exists trace,
           log s'
           = log s1 ++ trace
             ++ [Called (CScreenshot "post_extraction_attempt_done.png")
                        None]).
Proof.
  split.
  - intros s1 s2 Hmiss Hshot.
    pose proof (find_post_elements_all_miss _ s s1 Hmiss) as Hf.
    rewrite (extract_recent_posts_after_loop count s s1 [] Hf), Hshot.
    split; [reflexivity|].
    destruct (all_miss_probe_only _ s s1 Hmiss) as [probes [E F]].
    exists probes. split; [|exact F].
    rewrite (page_screenshot_log _ s1 s2 (Ret tt) Hshot), E.
    now rewrite <- app_assoc.
  - intros els s1 r s' Hf Hne Hx.
    rewrite (extract_recent_posts_after_loop count s s1 els Hf) in Hx.
    destruct els as [|el rest]; [congruence|].
    destruct (scan_posts_appends count (el :: rest) 0 [] s1) as [t [E _]].
    destruct (scan_posts count 0 (el :: rest) [] s1) as [[r0|e] s2];
      [|discriminate].
    simpl in E.
    destruct (page_screenshot "post_extraction_attempt_done.png" s2)
      as [[[]|e] s3] eqn:Hshot; [|discriminate].
    injection Hx as <- <-. exists t.
    rewrite (page_screenshot_log _ s2 s3 (Ret tt) Hshot), E.
    now rewrite <- app_assoc.
Qed.

(** X3. With a cap that is zero or negative, the scan reads no element:
    once containers have resolved, [extract_recent_posts] takes its closing
    screenshot at once and returns the empty list. *)
Theorem nonpositive_count_reads_nothing
        (count : Z) (s s1 s2 : St W H) (els : list H) :
  (count <= 0)%Z ->
  find_post_elements post_container_selectors s = (Ret els, s1) ->
  els <> [] ->
  page_screenshot "post_extraction_attempt_done.png" s1 = (Ret tt, s2) ->
  extract_recent_posts count s = (Ret [], s2)
  /\ log s2
     = log s1
       ++ [Called (CScreenshot "post_extraction_attempt_done.png") None].
Proof.
  intros Hc Hf Hne Hshot.
  rewrite (extract_recent_posts_after_loop count s s1 els Hf).
  destruct els as [|el rest]; [congruence|].
  rewrite scan_posts_stop by exact Hc. rewrite Hshot.
  split; [reflexivity|].
  exact (page_screenshot_log _ s1 s2 (Ret tt) Hshot).
Qed.

Lemma find_post_elements_reads_only (selectors : list string) :
  (forall x, In x selectors -> In x post_container_selectors) ->
  emits reads_only (find_post_elements selectors).
Proof.
  induction selectors as [|selector rest IH]; intros Hin; simpl.
  - apply emits_ret.
  - assert (Hsel : In selector post_container_selectors)
      by (apply Hin; now left).
    apply emits_bind.
    + unfold probe_selector, page_wait_for_selector,
        page_query_selector_all.
      repeat first
        [ apply visible_only_emits; intros el r; exact I
        | apply emits_invoke; intros r; exact Hsel
        | emits_step ].
    + intros [|el els]; [|apply emits_ret].
      apply IH. intros x Hx. apply Hin. now right.
Qed.

Lemma scan_posts_reads_only (count : Z) (els : list H) :
  forall i acc, emits reads_only (scan_posts count i els acc).
Proof.
  induction els as [|el rest IH]; intros i acc; simpl.
  - apply emits_ret.
  - destruct (i >=? count)%Z; [apply emits_ret|].
    apply emits_bind; [|intros; apply IH].
    unfold el_inner_text.
    repeat first [ apply emits_invoke; intros r; exact I | emits_step ].
Qed.

(** X4. [extract_recent_posts] only observes the page: whatever the page
    does, every call of the stage is a wait for or a query of one of the
    five container selectors, a visibility check, a text read or one of its
    two screenshots.  It never clicks, fills, presses a key, navigates or
    closes. *)
Theorem extract_recent_posts_only_reads (count : Z) :
  emits (W := W) reads_only (extract_recent_posts count).
Proof.
  unfold extract_recent_posts, page_screenshot.
  apply emits_bind.
  - apply find_post_elements_reads_only. intros x Hx. exact Hx.
  - intros [|el els].
    + repeat first
        [ apply emits_invoke; intros r; left; reflexivity | emits_step ].
    + repeat first
        [ apply scan_posts_reads_only
        | apply emits_invoke; intros r; right; reflexivity
        | emits_step ].
Qed.

End ExtractionEdges.

(** Scenario D: no selector matches; the result is empty and the one
    screenshot is [no_posts_found_on_page.png]. *)
Lemma nothing_found_is_empty_with_its_own_screenshot_witness :
  fst (extract_recent_posts 3 (start scenario_D)) = Ret []
  /\ shots (log (snd (extract_recent_posts 3 (start scenario_D))))
     = [("no_posts_found_on_page.png", None)].
Proof.
  pose (s := start scenario_D).
  pose (s1 := snd (find_post_elements post_container_selectors s)).
  pose (s2 := snd (page_screenshot "no_posts_found_on_page.png" s1)).
  destruct (nothing_found_is_empty_with_its_own_screenshot 3 s)
    as [Hnone _].
  destruct (Hnone s1 s2) as [Hx _].
  - repeat (eapply all_miss_cons; [vm_compute; reflexivity|]).
    apply all_miss_nil.
  - vm_compute; reflexivity.
  - fold s. rewrite Hx. split; [reflexivity|vm_compute; reflexivity].
Defined.

(** Scenario C with [count = 0]: five containers resolve and none is read. *)
Lemma nonpositive_count_reads_nothing_witness :
  fst (extract_recent_posts 0 (start scenario_C)) = Ret []
  /\ shots (log (snd (extract_recent_posts 0 (start scenario_C))))
     = [("post_extraction_attempt_done.png", None)].
Proof.
  pose (s := start scenario_C).
  pose (s1 := snd (find_post_elements post_container_selectors s)).
  pose (s2 := snd (page_screenshot "post_extraction_attempt_done.png" s1)).
  destruct (nonpositive_count_reads_nothing
              0 s s1 s2
              [post item1; post item2; post item3; post item4; post item5])
    as [Hx _]; try (vm_compute; reflexivity); [lia|discriminate|].
  fold s. rewrite Hx. split; [reflexivity|vm_compute; reflexivity].
Defined.

(** ** The probe of one selector: which elements it keeps *)

Section Probe.

Context {W H : Type} {session : Session W H}.

Lemma visible_run_subseq (els kept : list H) (s s' : St W H) :
  visible_run els s kept s' -> subseq kept els.
Proof. induction 1; now constructor. Qed.

(** X5. A probe that yields elements has waited for the selector, queried
    all its matches and asked each match, in order, whether it is visible:
    what it yields is the matches that answered yes, in the order of the
    query, the others left out. *)
Theorem probe_keeps_the_visible_matches_in_order
        (selector : string) (s s' : St W H) (visible_elements : list H) :
  probe_selector selector s = (Ret visible_elements, s') ->
  visible_elements <> [] ->
  exists s1 s2 elements_found,
    page_wait_for_selector selector s = (Ret tt, s1)
    /\ page_query_selector_all selector s1 = (Ret elements_found, s2)
    /\ visible_run elements_found s2 visible_elements s'
    /\ subseq visible_elements elements_found.
Proof.
  intros Hp Hne. unfold probe_selector, try_except in Hp.
  unfold bind at 1 in Hp.
  destruct (page_wait_for_selector selector s) as [[[]|e] s1] eqn:Hw.
  - unfold bind at 1 in Hp.
    destruct (page_query_selector_all selector s1) as [[els|e] s2] eqn:Hq.
    + destruct els as [|el rest].
      * injection Hp as <- _. congruence.
      * destruct (visible_only (el :: rest) s2) as [[vs|e] s3] eqn:Hv.
        -- injection Hp as <- <-. exists s1, s2, (el :: rest).
           pose proof (visible_only_run _ _ _ _ Hv) as Hrun.
           split; [first [exact Hw|reflexivity]|].
           split; [first [exact Hq|reflexivity]|]. split; [exact Hrun|].
           exact (visible_run_subseq _ _ _ _ Hrun).
        -- destruct e; [injection Hp as <- _; congruence|discriminate].
    + destruct e; [injection Hp as <- _; congruence|discriminate].
  - destruct e; [injection Hp as <- _; congruence|discriminate].
Qed.

End Probe.

(** Scenario A: the second selector has a hidden match between two visible
    ones; the probe keeps the two visible ones, in order. *)
Lemma probe_keeps_the_visible_matches_in_order_witness :
  exists s2,
    visible_run [post item3; hidden item1; post item4] s2
                [post item3; post item4]
                (snd (probe_selector "div[role='article']" (start scenario_A)))
    /\ subseq [post item3; post item4]
              [post item3; hidden item1; post item4].
Proof.
  destruct (probe_keeps_the_visible_matches_in_order
              "div[role='article']" (start scenario_A)
              (snd (probe_selector "div[role='article']" (start scenario_A)))
              [post item3; post item4])
    as [s1 [s2 [els [Hw [Hq [Hrun Hsub]]]]]].
  - vm_compute; reflexivity.
  - discriminate.
  - assert (Hels : els = [post item3; hidden item1; post item4]).
    { vm_compute in Hw. injection Hw as <-.
      vm_compute in Hq. now injection Hq as <- _. }
    subst els. exists s2. split; [exact Hrun|exact Hsub].
Defined.

(** ** Results and the trace behind them *)

Section Verdicts.

Context {W H : Type} {session : Session W H}.

Variable Q : bool -> list (Event H) -> Prop.

(** [Q] still holds of a trace when entries are put in front of it. *)
Hypothesis Q_after : forall b before trace, Q b trace -> Q b (before ++ trace).

Lemma returns_with_ret (b : bool) :
  Q b [] -> returns_with (W := W) Q (ret b).
Proof.
  intros HQ s b' s' Hr. injection Hr as <- <-. exists [].
  split; [now rewrite app_nil_r|exact HQ].
Qed.

Lemma returns_with_raise (e : exn) : returns_with (W := W) Q (raise e).
Proof. intros s b s' Hr. discriminate. Qed.

Lemma returns_with_bind {A} (m : M W H A) (k : A -> M W H bool) :
  emits (fun _ => True) m ->
  (forall a, returns_with Q (k a)) ->
  returns_with Q (bind m k).
Proof.
  intros Hm Hk s b s' Hr. unfold bind in Hr.
  destruct (Hm s) as [t1 [E1 _]].
  destruct (m s) as [[a|e] s1]; [|discriminate]. simpl in E1.
  destruct (Hk a s1 b s' Hr) as [t2 [E2 HQ]].
  exists (t1 ++ t2). split; [now rewrite E2, E1, app_assoc|].
  now apply Q_after.
Qed.

Lemma returns_with_try_except (body : M W H bool)
      (handler : exn -> M W H bool) :
  emits (fun _ => True) body ->
  returns_with Q body ->
  (forall e, returns_with Q (handler e)) ->
  returns_with Q (try_except body handler).
Proof.
  intros Hm Hb Hh s b s' Hr. unfold try_except in Hr.
  destruct (Hm s) as [t1 [E1 _]].
  destruct (body s) as [[a|e] s1] eqn:Hbody; simpl in E1.
  - injection Hr as <- <-. exact (Hb s a s1 Hbody).
  - destruct (Hh e s1 b s' Hr) as [t2 [E2 HQ]].
    exists (t1 ++ t2). split; [now rewrite E2, E1, app_assoc|].
    now apply Q_after.
Qed.

Lemma returns_with_shot (path : string) (b : bool) :
  Q b [Called (CScreenshot path) None] ->
  returns_with Q (page_screenshot path ;; ret b).
Proof.
  intros HQ s b' s' Hr. unfold bind in Hr.
  destruct (page_screenshot path s) as [[[]|e] s1] eqn:Hs; [|discriminate].
  injection Hr as <- <-. exists [Called (CScreenshot path) None].
  split; [|exact HQ].
  exact (page_screenshot_log path s s1 (Ret tt) Hs).
Qed.

End Verdicts.

Lemma ends_with_shot_after {H} (label : bool -> string -> Prop)
      (b : bool) (before trace : list (Event H)) :
  ends_with_shot label b trace -> ends_with_shot label b (before ++ trace).
Proof.
  intros [t [path [-> Hl]]]. exists (before ++ t), path.
  split; [now rewrite app_assoc|exact Hl].
Qed.

Lemma ends_with_shot_single {H} (label : bool -> string -> Prop)
      (b : bool) (path : string) :
  label b path ->
  ends_with_shot (H := H) label b [Called (CScreenshot path) None].
Proof. intros Hl. exists [], path. now split. Qed.

(** ** [login_to_facebook]: results, paths and calls *)

Section LoginFurther.

Context {W H : Type} {session : Session W H}.

Lemma login_fill_and_submit_appends (email password : string) :
  emits (fun _ => True) (login_fill_and_submit email password).
Proof.
  unfold login_fill_and_submit.
  repeat first
    [ apply click_login_button_appends
    | apply emits_invoke; intros; exact I
    | emits_step ].
Qed.

Lemma email_still_visible_appends :
  emits (fun _ : Event H => True) email_still_visible.
Proof. unfold email_still_visible. emits_any. Qed.

Lemma login_body_appends (email password : string) :
  emits (fun _ => True) (login_body email password).
Proof.
  unfold login_body, login_check.
  repeat first
    [ apply login_fill_and_submit_appends
    | apply email_still_visible_appends
    | apply emits_invoke; intros; exact I
    | emits_step ].
Qed.

(** Settles [login_label b path] for a path of the list. *)
Ltac label_in_list :=
  cbv [login_label search_failure_label]; cbn [In];
  first [ reflexivity
        | repeat (first [ left; reflexivity | right ]) ].

Ltac login_verdict :=
  repeat first
    [ apply returns_with_shot; apply ends_with_shot_single; label_in_list
    | apply (returns_with_bind _ (ends_with_shot_after login_label));
      [ first [ apply login_fill_and_submit_appends
              | apply email_still_visible_appends
              | apply emits_page_url
              | apply emits_invoke; intros; exact I ]
      | intros ]
    | match goal with
      | |- returns_with _ (if ?x then _ else _) => destruct x
      end ].

Lemma login_to_facebook_verdict (email password : string) :
  returns_with (ends_with_shot login_label)
               (login_to_facebook email password).
Proof.
  unfold login_to_facebook.
  apply (returns_with_try_except _ (ends_with_shot_after login_label)).
  - apply login_body_appends.
  - unfold login_body, login_check. login_verdict.
  - intros e. unfold login_handler. destruct e; login_verdict.
Qed.

(** X6. Whatever [login_to_facebook] returns, the last call it made is a
    screenshot that returned, and the path of that screenshot tells the
    result: [login_success_evidence.png] for [True], one of the six failure
    screenshots for [False]. *)
Theorem login_result_comes_after_its_screenshot
        (email password : string) (s s' : St W H) (result : bool) :
  login_to_facebook email password s = (Ret result, s') ->
  exists before path,
    log s' = log s ++ before ++ [Called (CScreenshot path) None]
    /\ login_label result path.
Proof.
  intros Hr.
  destruct (login_to_facebook_verdict email password s result s' Hr)
    as [trace [E [before [path [-> Hl]]]]].
  now exists before, path.
Qed.


Lemma invoke_log {A} (c : Call H) (op : W -> outcome A * W)
      (s s' : St W H) (r : outcome A) :
  invoke c op s = (r, s') -> log s' = log s ++ [Called c (status r)].
Proof.
  unfold invoke. destruct (op (world s)) as [r0 w']. now intros [= <- <-].
Qed.

Lemma none_resolves_query_only (selectors : list string) (s s' : St W H) :
  none_resolves selectors s s' ->
  exists queries, log s' = log s ++ queries /\ Forall query_only queries.
Proof.
  induction 1 as [s|selector rest s s1 s2 Hq Hrest IH
                  |selector rest s s1 s2 s3 el Hq Hv Hrest IH].
  - exists []. split; [now rewrite app_nil_r|constructor].
  - destruct IH as [t [E F]]. apply invoke_log in Hq.
    exists (Called (CQuerySelector selector) None :: t).
    split; [now rewrite E, Hq, <- app_assoc|].
    constructor; [exact I|exact F].
  - destruct IH as [t [E F]]. apply invoke_log in Hq. apply invoke_log in Hv.
    exists (Called (CQuerySelector selector) None
              :: Called (CIsVisible el) None :: t).
    split; [now rewrite E, Hv, Hq, <- !app_assoc|].
    repeat constructor; exact F.
Qed.

Lemma click_login_button_none_resolves (selectors : list string)
      (s s' : St W H) :
  none_resolves selectors s s' ->
  click_login_button selectors s = (Ret false, s').
Proof.
  induction 1 as [s|selector rest s s1 s2 Hq Hrest IH
                  |selector rest s s1 s2 s3 el Hq Hv Hrest IH]; simpl.
  - reflexivity.
  - unfold bind at 1. rewrite Hq. unfold bind at 1. simpl. exact IH.
  - unfold bind at 1. rewrite Hq. unfold bind at 1. simpl.
    rewrite Hv. exact IH.
Qed.

(** X8. When the form is filled and none of the three button selectors
    finds a visible element, [login_to_facebook] returns [False] right after
    the screenshot [login_button_not_found.png]: after the fills it has only
    queried and checked visibility, so nothing was clicked and the settle
    wait never started. *)
Theorem login_without_a_visible_button_fails
        (email password : string) (s s1 s2 s3 s4 s5 s6 : St W H) :
  page_wait_for_selector email_selector s = (Ret tt, s1) ->
  page_fill email_selector email s1 = (Ret tt, s2) ->
  page_wait_for_selector pass_selector s2 = (Ret tt, s3) ->
  page_fill pass_selector password s3 = (Ret tt, s4) ->
  none_resolves login_button_selectors s4 s5 ->
  page_screenshot "login_button_not_found.png" s5 = (Ret tt, s6) ->
  login_to_facebook email password s = (Ret false, s6)
  /\ exists queries,
      log s6
      = log s4 ++ queries
        ++ [Called (CScreenshot "login_button_not_found.png") None]
      /\ Forall query_only queries.
Proof.
  intros Hw1 Hf1 Hw2 Hf2 Hnone Hshot. split.
  - unfold login_to_facebook. apply try_except_returned.
    unfold login_body, login_fill_and_submit.
    rewrite (bind_returned _ _ s s5 false).
    + cbn [negb]. unfold bind. now rewrite Hshot.
    + rewrite (bind_returned _ _ s s1 tt Hw1).
      rewrite (bind_returned _ _ s1 s2 tt Hf1).
      rewrite (bind_returned _ _ s2 s3 tt Hw2).
      rewrite (bind_returned _ _ s3 s4 tt Hf2).
      now apply click_login_button_none_resolves.
  - destruct (none_resolves_query_only _ s4 s5 Hnone) as [queries [E F]].
    exists queries. split; [|exact F].
    rewrite (page_screenshot_log _ s5 s6 (Ret tt) Hshot), E.
    now rewrite <- app_assoc.
Qed.


Lemma click_login_button_calls (email password : string)
      (selectors : list string) :
  (forall x, In x selectors -> In x login_button_selectors) ->
  emits (login_call email password) (click_login_button selectors).
Proof.
  induction selectors as [|selector rest IH]; intros Hin; simpl.
  - apply emits_ret.
  - assert (Hsel : In selector login_button_selectors)
      by (apply Hin; now left).
    assert (Hrest : emits (login_call email password)
                          (click_login_button rest))
      by (apply IH; intros x Hx; apply Hin; now right).
    unfold page_query_selector, found_and_visible, el_is_visible, el_click.
    repeat first
      [ exact Hrest
      | apply emits_invoke; intros r; first [exact I | left; exact Hsel]
      | emits_step ].
Qed.

(** X10. The calls of [login_to_facebook] are these and no other: waits
    for the two fields, a fill of the email field with [email] and of the
    password field with [password], queries of the button selectors and of
    the email field, visibility checks, clicks, the settle wait of 5000 ms
    and screenshots.  The credentials are typed nowhere else; no key is
    pressed, no text read, no navigation started, nothing closed. *)
Theorem login_types_credentials_only_in_their_fields
        (email password : string) :
  emits (W := W) (login_call email password)
        (login_to_facebook email password).
Proof.
  unfold login_to_facebook, login_body, login_fill_and_submit, login_check,
    email_still_visible, login_handler, page_wait_for_selector, page_fill,
    page_wait_for_timeout, page_screenshot, page_query_selector,
    el_is_visible.
  repeat first
    [ apply click_login_button_calls; intros x Hx; exact Hx
    | apply emits_invoke; intros r; cbn [login_call];
      first [ exact I | reflexivity
            | left; split; reflexivity | right; split; reflexivity
            | left; reflexivity | right; reflexivity ]
    | emits_step ].
Qed.

End LoginFurther.

(** Scenario B: the result [False] comes right after one of the six failure
    screenshots. *)
Lemma login_result_comes_after_its_screenshot_witness :
  exists before path,
    log (snd (login_to_facebook "user@example.com" "secret"
                                (start scenario_B)))
    = log (start scenario_B) ++ before ++ [Called (CScreenshot path) None]
    /\ login_label false path.
Proof.
  apply (login_result_comes_after_its_screenshot
           "user@example.com" "secret" (start scenario_B)).
  vm_compute; reflexivity.
Defined.


(** The two fields without a button: [False] after
    [login_button_not_found.png], and no click in the trace. *)
Lemma login_without_a_visible_button_fails_witness :
  fst (login_to_facebook "user@example.com" "secret"
                         (start scenario_no_button)) = Ret false
  /\ shots (log (snd (login_to_facebook "user@example.com" "secret"
                        (start scenario_no_button))))
     = [("login_button_not_found.png", None)].
Proof.
  pose (s := start scenario_no_button).
  pose (s1 := snd (page_wait_for_selector email_selector s)).
  pose (s2 := snd (page_fill email_selector "user@example.com" s1)).
  pose (s3 := snd (page_wait_for_selector pass_selector s2)).
  pose (s4 := snd (page_fill pass_selector "secret" s3)).
  pose (s5 := snd (click_login_button login_button_selectors s4)).
  pose (s6 := snd (page_screenshot "login_button_not_found.png" s5)).
  destruct (login_without_a_visible_button_fails
              "user@example.com" "secret" s s1 s2 s3 s4 s5 s6)
    as [Hrun _]; try (vm_compute; reflexivity).
  - repeat (eapply none_resolves_absent; [vm_compute; reflexivity|]).
    apply none_resolves_nil.
  - fold s. rewrite Hrun. split; [reflexivity|vm_compute; reflexivity].
Defined.


(** ** [search_facebook]: the affordance, the results and the calls *)

Section SearchFurther.

Context {W H : Type} {session : Session W H}.

(** X11. The trigger loop reports an interaction exactly when it has
    filled and submitted through the first selector, in the order of the
    list, whose first match is visible: the selectors before it found
    nothing visible, and the run ends where that fill and submit end, so no
    selector after it is queried. *)
Theorem search_uses_the_first_visible_affordance
        (keyword : string) (selectors : list string) (s s' : St W H) :
  search_interact keyword selectors s = (Ret true, s')
  <->
  exists before selector after el s1 s2 s3,
    selectors = before ++ selector :: after
    /\ none_resolves before s s1
    /\ page_query_selector selector s1 = (Ret (Some el), s2)
    /\ el_is_visible el s2 = (Ret true, s3)
    /\ search_fill_and_submit keyword selector el s3 = (Ret tt, s').
Proof.
  split.
  - revert s. induction selectors as [|selector rest IH]; intros s Hs;
      simpl in Hs; [discriminate|].
    unfold bind at 1 in Hs.
    destruct (page_query_selector selector s) as [[[el|]|e] s1] eqn:Hq;
      [| |discriminate].
    + unfold bind at 1 in Hs. simpl in Hs.
      destruct (el_is_visible el s1) as [[[]|e] s2] eqn:Hv;
        [| |discriminate].
      * unfold bind in Hs.
        destruct (search_fill_and_submit keyword selector el s2)
          as [[[]|e] s3] eqn:Hf; [|discriminate].
        injection Hs as <-.
        exists [], selector, rest, el, s, s1, s2.
        repeat split; try assumption. constructor.
      * destruct (IH s2 Hs)
          as [before [sel [after [el' [t1 [t2 [t3 [-> [Hn Hrest]]]]]]]]].
        exists (selector :: before), sel, after, el', t1, t2, t3.
        split; [reflexivity|]. split; [|exact Hrest].
        eapply none_resolves_hidden; eauto.
    + unfold bind at 1 in Hs. simpl in Hs.
      destruct (IH s1 Hs)
        as [before [sel [after [el' [t1 [t2 [t3 [-> [Hn Hrest]]]]]]]]].
      exists (selector :: before), sel, after, el', t1, t2, t3.
      split; [reflexivity|]. split; [|exact Hrest].
      eapply none_resolves_absent; eauto.
  - intros [before [selector [after [el [s1 [s2 [s3
             [-> [Hn [Hq [Hv Hf]]]]]]]]]]].
    induction Hn as [s|sel rest s t1 t2 Hq0 Hrest IH
                     |sel rest s t1 t2 t3 el0 Hq0 Hv0 Hrest IH]; simpl.
    + unfold bind at 1. rewrite Hq. unfold bind at 1. simpl. rewrite Hv.
      unfold bind. now rewrite Hf.
    + unfold bind at 1. rewrite Hq0. unfold bind at 1. simpl.
      exact (IH Hq).
    + unfold bind at 1. rewrite Hq0. unfold bind at 1. simpl. rewrite Hv0.
      exact (IH Hq).
Qed.

Lemma yields_ret {A} (x : A) : yields (W := W) (H := H) (ret x) (eq x).
Proof. intros s a s' Hr. now injection Hr as <- _. Qed.

Lemma yields_bind {A B} (m : M W H A) (k : A -> M W H B) (R : B -> Prop) :
  (forall a, yields (k a) R) -> yields (bind m k) R.
Proof.
  intros Hk s b s' Hr. unfold bind in Hr.
  destruct (m s) as [[a|e] s1]; [|discriminate]. exact (Hk a s1 b s' Hr).
Qed.

Lemma emits_bind_yields {A B} (P : Event H -> Prop) (R : A -> Prop)
      (m : M W H A) (k : A -> M W H B) :
  emits P m -> yields m R -> (forall a, R a -> emits P (k a)) ->
  emits P (bind m k).
Proof.
  intros Hm Hy Hk s. unfold bind. destruct (Hm s) as [t1 [E1 F1]].
  destruct (m s) as [[a|e] s1] eqn:Hms; simpl in E1.
  - destruct (Hk a (Hy s a s1 Hms) s1) as [t2 [E2 F2]]. exists (t1 ++ t2).
    rewrite E2, E1, app_assoc. split; [reflexivity|].
    apply Forall_app; now split.
  - exists t1. simpl. now split.
Qed.

Lemma search_fill_and_submit_appends (keyword selector : string) (el : H) :
  emits (fun _ => True) (search_fill_and_submit keyword selector el).
Proof. unfold search_fill_and_submit. emits_any. Qed.

Lemma search_soft_validation_appends (keyword : string) :
  emits (fun _ : Event H => True) (search_soft_validation keyword).
Proof. unfold search_soft_validation. emits_any. Qed.

Lemma search_body_appends (keyword : string) :
  emits (fun _ => True) (search_body keyword).
Proof.
  unfold search_body, search_after_submit.
  repeat first
    [ apply search_interact_appends
    | apply search_soft_validation_appends
    | apply emits_invoke; intros; exact I
    | emits_step ].
Qed.

Lemma failed_after_shot_after (b : bool) (before trace : list (Event H)) :
  failed_after_shot b trace -> failed_after_shot b (before ++ trace).
Proof.
  intros Hf Hb. apply ends_with_shot_after. exact (Hf Hb).
Qed.

Ltac search_verdict :=
  repeat first
    [ apply returns_with_shot; intros _; apply ends_with_shot_single;
      cbv [search_failure_label]; cbn [In];
      repeat (first [ left; reflexivity | right ])
    | apply returns_with_ret; intros Hb; discriminate Hb
    | apply (returns_with_bind _ failed_after_shot_after);
      [ first [ apply search_interact_appends
              | apply search_soft_validation_appends
              | apply emits_invoke; intros; exact I ]
      | intros ]
    | match goal with
      | |- returns_with _ (if ?x then _ else _) => destruct x
      end ].

Lemma search_facebook_verdict (keyword : string) :
  returns_with failed_after_shot (search_facebook keyword).
Proof.
  unfold search_facebook.
  apply (returns_with_try_except _ failed_after_shot_after).
  - apply search_body_appends.
  - unfold search_body, search_after_submit. search_verdict.
  - intros e. unfold search_handler. destruct e; search_verdict.
Qed.

(** X12. When [search_facebook] returns [False], the last call it made is
    one of its three failure screenshots, and that call returned.  It
    returns [True] in exactly one way: an affordance was filled and
    submitted, and the settle wait of 7000 ms, the screenshot
    [search_results_page.png] and the soft validation returned. *)
Theorem search_result_and_its_trace (keyword : string) (s s' : St W H) :
  (search_facebook keyword s = (Ret false, s') ->
   exists before path,
     log s' = log s ++ before ++ [Called (CScreenshot path) None]
     /\ search_failure_label path)
  /\ (search_facebook keyword s = (Ret true, s')
      <->
      exists s1 s2 s3,
        search_interact keyword search_trigger_selectors s = (Ret true, s1)
        /\ page_wait_for_timeout 7000 s1 = (Ret tt, s2)
        /\ page_screenshot "search_results_page.png" s2 = (Ret tt, s3)
        /\ search_soft_validation keyword s3 = (Ret tt, s')).
Proof.
  split; [|split].
  - intros Hr.
    destruct (search_facebook_verdict keyword s false s' Hr)
      as [trace [E Hq]].
    destruct (Hq eq_refl) as [before [path [-> Hl]]].
    now exists before, path.
  - intros Hr. unfold search_facebook, try_except in Hr.
    destruct (search_body keyword s) as [[b|e] s0] eqn:Hb.
    + injection Hr as -> ->. unfold search_body in Hb.
      unfold bind at 1 in Hb.
      destruct (search_interact keyword search_trigger_selectors s)
        as [[[]|e] s1] eqn:Hi; [| |discriminate]; cbn [negb] in Hb.
      * unfold search_after_submit in Hb. unfold bind at 1 in Hb.
        destruct (page_wait_for_timeout 7000 s1) as [[[]|e] s2] eqn:Hw;
          [|discriminate].
        unfold bind at 1 in Hb.
        destruct (page_screenshot "search_results_page.png" s2)
          as [[[]|e] s3] eqn:Hshot; [|discriminate].
        unfold bind at 1 in Hb.
        destruct (search_soft_validation keyword s3)
          as [[[]|e] s4] eqn:Hval; [|discriminate].
        injection Hb as <-. exists s1, s2, s3. repeat split; assumption.
      * unfold bind in Hb.
        destruct (page_screenshot _ s1) as [[[]|e] s2]; discriminate.
    + unfold search_handler, bind in Hr.
      destruct e;
        match type of Hr with
        | context [page_screenshot ?p s0] =>
            destruct (page_screenshot p s0) as [[[]|e'] s2]
        end; discriminate.
  - intros [s1 [s2 [s3 [Hi [Hw [Hshot Hval]]]]]].
    unfold search_facebook. apply try_except_returned.
    unfold search_body. rewrite (bind_returned _ _ s s1 true Hi).
    cbn [negb]. unfold search_after_submit.
    rewrite (bind_returned _ _ s1 s2 tt Hw).
    rewrite (bind_returned _ _ s2 s3 tt Hshot).
    now rewrite (bind_returned _ _ s3 s' tt Hval).
Qed.

(** X13. The calls of the fill and submit of lines 176-191, in order.  The
    tag of the affordance is read first.  When that read raises, no other
    call is made and the error leaves the block.  When it returns [input]
    and the calls return, the element is filled in place with the keyword,
    the screenshot [search_keyword_filled.png] is taken and Enter is pressed
    on the selector of the element; nothing is clicked.  When it returns
    another tag and the calls return, the element is clicked, 2000 ms are
    waited, the default search field is filled with the keyword, the
    screenshot is taken and Enter is pressed on the default search field.
    The block ends as the key press ends. *)
Theorem search_fills_by_the_shape_of_the_affordance
        (keyword selector : string) (el : H) (s : St W H) :
  (forall e s1,
      el_tag_name el s = (Raise e, s1) ->
      search_fill_and_submit keyword selector el s = (Raise e, s1)
      /\ log s1 = log s ++ [Called (CTagName el) (Some e)])
  /\ (forall s1 s2 s3 s4 r,
         el_tag_name el s = (Ret "input", s1) ->
         el_fill el keyword s1 = (Ret tt, s2) ->
         page_screenshot "search_keyword_filled.png" s2 = (Ret tt, s3) ->
         page_press selector "Enter" s3 = (r, s4) ->
         search_fill_and_submit keyword selector el s = (r, s4)
         /\ log s4
            = log s
              ++ [Called (CTagName el) None;
                  Called (CElementFill el keyword) None;
                  Called (CScreenshot "search_keyword_filled.png") None;
                  Called (CPress selector "Enter") (status r)])
  /\ (forall tag s1 s2 s3 s4 s5 s6 r,
         el_tag_name el s = (Ret tag, s1) ->
         tag <> "input" ->
         el_click el s1 = (Ret tt, s2) ->
         page_wait_for_timeout 2000 s2 = (Ret tt, s3) ->
         page_fill default_search_field_selector keyword s3 = (Ret tt, s4) ->
         page_screenshot "search_keyword_filled.png" s4 = (Ret tt, s5) ->
         page_press default_search_field_selector "Enter" s5 = (r, s6) ->
         search_fill_and_submit keyword selector el s = (r, s6)
         /\ log s6
            = log s
              ++ [Called (CTagName el) None;
                  Called (CClick el) None;
                  Called (CWaitForTimeout 2000) None;
                  Called (CFill default_search_field_selector keyword) None;
                  Called (CScreenshot "search_keyword_filled.png") None;
                  Called (CPress default_search_field_selector "Enter")
                         (status r)]).
Proof.
  split; [|split].
  - intros e s1 Ht. split.
    + unfold search_fill_and_submit, bind. now rewrite Ht.
    + exact (invoke_log _ _ _ _ _ Ht).
  - intros s1 s2 s3 s4 r Ht Hf Hshot Hp. split.
    + unfold search_fill_and_submit.
      rewrite (bind_returned _ _ s s1 "input" Ht).
      rewrite String.eqb_refl.
      rewrite (bind_returned _ _ s1 s2 selector).
      * now rewrite (bind_returned _ _ s2 s3 tt Hshot).
      * now rewrite (bind_returned _ _ s1 s2 tt Hf).
    + rewrite (invoke_log _ _ _ _ _ Hp), (invoke_log _ _ _ _ _ Hshot),
        (invoke_log _ _ _ _ _ Hf), (invoke_log _ _ _ _ _ Ht).
      simpl. now rewrite <- !app_assoc.
  - intros tag s1 s2 s3 s4 s5 s6 r Ht Hne Hc Hw Hf Hshot Hp. split.
    + unfold search_fill_and_submit.
      rewrite (bind_returned _ _ s s1 tag Ht).
      apply String.eqb_neq in Hne. rewrite Hne.
      rewrite (bind_returned _ _ s1 s4 default_search_field_selector).
      * now rewrite (bind_returned _ _ s4 s5 tt Hshot).
      * rewrite (bind_returned _ _ s1 s2 tt Hc).
        rewrite (bind_returned _ _ s2 s3 tt Hw).
        now rewrite (bind_returned _ _ s3 s4 tt Hf).
    + rewrite (invoke_log _ _ _ _ _ Hp), (invoke_log _ _ _ _ _ Hshot),
        (invoke_log _ _ _ _ _ Hf), (invoke_log _ _ _ _ _ Hw),
        (invoke_log _ _ _ _ _ Hc), (invoke_log _ _ _ _ _ Ht).
      simpl. now rewrite <- !app_assoc.
Qed.

Lemma search_fill_and_submit_calls (keyword selector : string) (el : H) :
  In selector search_trigger_selectors ->
  emits (search_call keyword) (search_fill_and_submit keyword selector el).
Proof.
  intros Hsel. unfold search_fill_and_submit, el_tag_name, el_fill, el_click,
    page_wait_for_timeout, page_fill, page_screenshot, page_press.
  apply emits_bind; [apply emits_invoke; intros r; exact I|].
  intros tag. destruct (String.eqb tag "input").
  - apply (emits_bind_yields _ (eq selector)).
    + repeat first
        [ apply emits_invoke; intros r; reflexivity | emits_step ].
    + apply yields_bind. intros _. apply yields_ret.
    + intros field <-.
      repeat first
        [ apply emits_invoke; intros r; cbn [search_call];
          first [ exact I | split; [reflexivity|left; exact Hsel] ]
        | emits_step ].
  - apply (emits_bind_yields _ (eq default_search_field_selector)).
    + repeat first
        [ apply emits_invoke; intros r; cbn [search_call];
          first [ exact I | left; reflexivity | split; reflexivity ]
        | emits_step ].
    + repeat (apply yields_bind; intros _). apply yields_ret.
    + intros field <-.
      repeat first
        [ apply emits_invoke; intros r; cbn [search_call];
          first [ exact I | split; [reflexivity|right; reflexivity] ]
        | emits_step ].
Qed.

Lemma search_interact_calls (keyword : string) (selectors : list string) :
  (forall x, In x selectors -> In x search_trigger_selectors) ->
  emits (search_call keyword) (search_interact keyword selectors).
Proof.
  induction selectors as [|selector rest IH]; intros Hin; simpl.
  - apply emits_ret.
  - assert (Hsel : In selector search_trigger_selectors)
      by (apply Hin; now left).
    assert (Hrest : emits (search_call keyword)
                          (search_interact keyword rest))
      by (apply IH; intros x Hx; apply Hin; now right).
    unfold page_query_selector, found_and_visible, el_is_visible.
    repeat first
      [ exact Hrest
      | apply search_fill_and_submit_calls; exact Hsel
      | apply emits_invoke; intros r; cbn [search_call];
        first [ exact I | exact Hsel ]
      | emits_step ].
Qed.

(** X14. The calls of [search_facebook] are these and no other: queries
    of the six trigger selectors, visibility checks, tag reads, clicks,
    fills of the matched input or of the default search field with the
    keyword, Enter pressed on a trigger selector or on the default field,
    waits of 2000 and 7000 ms, screenshots, a title read and the warning.
    Nothing but the keyword is typed and no key but Enter is pressed. *)
Theorem search_types_only_the_keyword (keyword : string) :
  emits (W := W) (search_call keyword) (search_facebook keyword).
Proof.
  unfold search_facebook, search_body, search_after_submit,
    search_soft_validation, search_handler, page_wait_for_timeout,
    page_screenshot, page_title.
  repeat first
    [ apply search_interact_calls; intros x Hx; exact Hx
    | apply emits_invoke; intros r; cbn [search_call];
      first [ exact I | left; reflexivity | right; reflexivity ]
    | apply emits_warn; exact I
    | emits_step ].
Qed.

End SearchFurther.

(** The search field of [scenario_search]: the read of its tag raises, as
    with a handle that has no such method, and nothing is filled, clicked or
    pressed. *)
Lemma search_fills_by_the_shape_of_the_affordance_witness :
  fst (search_fill_and_submit
         "Bkash" ("input[name=" ++ dq ++ "q" ++ dq ++ "]")%string
         (input EmptyString) (start scenario_search))
  = Raise OtherException
  /\ log (snd (search_fill_and_submit
                 "Bkash" ("input[name=" ++ dq ++ "q" ++ dq ++ "]")%string
                 (input EmptyString) (start scenario_search)))
     = [Called (CTagName (input EmptyString)) (Some OtherException)].
Proof.
  destruct (search_fills_by_the_shape_of_the_affordance
              "Bkash" ("input[name=" ++ dq ++ "q" ++ dq ++ "]")%string
              (input EmptyString) (start scenario_search))
    as [Hraise _].
  destruct (Hraise OtherException
                   (snd (el_tag_name (input EmptyString)
                                     (start scenario_search))))
    as [Hrun Hlog]; [vm_compute; reflexivity|].
  rewrite Hrun. split; [reflexivity|exact Hlog].
Defined.

(** ** [main]: the cookie banner, the stages in sequence, the end *)

Section MainFurther.

Context {W H : Type} {session : Session W H}.

Lemma dismiss_cookie_banner_none_resolves (clicked : bool)
      (selectors : list string) (s s' : St W H) :
  none_resolves selectors s s' ->
  dismiss_cookie_banner clicked selectors s = (Ret clicked, s').
Proof.
  induction 1 as [s|selector rest s s1 s2 Hq Hrest IH
                  |selector rest s s1 s2 s3 el Hq Hv Hrest IH]; simpl.
  - reflexivity.
  - unfold bind at 1. rewrite Hq. unfold bind at 1. simpl. exact IH.
  - unfold bind at 1. rewrite Hq. unfold bind at 1. simpl.
    rewrite Hv. exact IH.
Qed.

(** X15. The cookie loop, at a selector whose first match is visible: when
    the click and the screenshot after it return, the loop stops there with
    [True] and queries no later selector; when the click raises, whatever
    the error, the loop takes the screenshot
    [cookie_consent_click_error.png] and goes on with the next selector,
    the flag unchanged.  When no selector finds a visible button the loop
    returns its flag as it was, without a click. *)
Theorem cookie_loop_stops_at_a_click_and_survives_its_failure
        (clicked : bool) (selector : string) (rest : list string)
        (button : H) (s s1 s2 : St W H) :
  page_query_selector selector s = (Ret (Some button), s1) ->
  el_is_visible button s1 = (Ret true, s2) ->
  (forall s3 s4,
      el_click button s2 = (Ret tt, s3) ->
      page_screenshot "cookie_consent_clicked.png" s3 = (Ret tt, s4) ->
      dismiss_cookie_banner clicked (selector :: rest) s = (Ret true, s4))
  /\ (forall e s3 s4,
         el_click button s2 = (Raise e, s3) ->
         page_screenshot "cookie_consent_click_error.png" s3 = (Ret tt, s4) ->
         dismiss_cookie_banner clicked (selector :: rest) s
         = dismiss_cookie_banner clicked rest s4)
  /\ (forall selectors t t',
         none_resolves selectors t t' ->
         dismiss_cookie_banner clicked selectors t = (Ret clicked, t'))
.
Proof.
  intros Hq Hv. split; [|split].
  - intros s3 s4 Hc Hshot. cbn [dismiss_cookie_banner].
    rewrite (bind_returned _ _ s s1 (Some button) Hq).
    rewrite (bind_returned _ _ s1 s2 true Hv).
    rewrite (bind_returned _ _ s2 s3 true).
    + rewrite (bind_returned _ _ s3 s4 true); [reflexivity|].
      apply try_except_returned.
      now rewrite (bind_returned _ _ s3 s4 tt Hshot).
    + apply try_except_returned. now rewrite (bind_returned _ _ s2 s3 tt Hc).
  - intros e s3 s4 Hc Hshot. cbn [dismiss_cookie_banner].
    rewrite (bind_returned _ _ s s1 (Some button) Hq).
    rewrite (bind_returned _ _ s1 s2 true Hv).
    rewrite (bind_returned _ _ s2 s3 false).
    + now rewrite (bind_returned _ _ s3 s4 tt Hshot).
    + unfold try_except, bind. now rewrite Hc.
  - intros selectors t t' Hnone.
    now apply dismiss_cookie_banner_none_resolves.
Qed.

Lemma main_launched_at_login (fb_email fb_password : string)
      (s1 s2 s3 : St W H) (b : bool) :
  new_page s1 = (Ret tt, s2) ->
  main_prelude s2 = (Ret b, s3) ->
  main_launched fb_email fb_password s1
  = try_except
      (login_successful <- login_to_facebook fb_email fb_password ;;
       main_after_login login_successful)
      (main_handler true) s3.
Proof.
  intros Hn Hp. unfold main_launched.
  rewrite (bind_returned _ _ s1 s2 true).
  - unfold try_except, main_steps. now rewrite (bind_returned _ _ s2 s3 b Hp).
  - apply try_except_returned. now rewrite (bind_returned _ _ s1 s2 tt Hn).
Qed.

Lemma close_log (s : St W H) :
  exists r, log (snd (close s)) = log s ++ [Called CClose r].
Proof.
  unfold close, invoke. destruct (browser_close (world s)) as [r w'].
  now exists (status r).
Qed.

Lemma try_finally_close_log {A} (body : M W H A) (s s1 : St W H)
      (r : outcome A) :
  body s = (r, s1) ->
  exists rc,
    log (snd (try_finally body close s)) = log s1 ++ [Called CClose rc].
Proof.
  intros Hb. unfold try_finally. rewrite Hb.
  destruct (close_log s1) as [rc E]. exists rc.
  destruct (close s1) as [[[]|e] s2]; exact E.
Qed.

(** X16. A stage that fails ends the run: once the browser is launched,
    the page bound and the prelude done, a login that returns [False] is
    followed by [browser.close()] and by nothing else (no search, no
    extraction), and after a login that returns [True] a search that
    returns [False] is followed by [browser.close()] alone (no
    extraction). *)
Theorem failed_stage_is_followed_by_close_alone
        (FB_EMAIL FB_PASSWORD : option string)
        (fb_email fb_password : string) (using_placeholders b : bool)
        (s s1 s2 s3 : St W H) :
  load_credentials FB_EMAIL FB_PASSWORD
  = (fb_email, fb_password, using_placeholders) ->
  launch s = (Ret tt, s1) ->
  new_page s1 = (Ret tt, s2) ->
  main_prelude s2 = (Ret b, s3) ->
  (forall s4,
      login_to_facebook fb_email fb_password s3 = (Ret false, s4) ->
      exists r,
        log (snd (main FB_EMAIL FB_PASSWORD s))
        = log s4 ++ [Called CClose r])
  /\ (forall s4 s5,
         login_to_facebook fb_email fb_password s3 = (Ret true, s4) ->
         search_facebook "Bkash" s4 = (Ret false, s5) ->
         exists r,
           log (snd (main FB_EMAIL FB_PASSWORD s))
           = log s5 ++ [Called CClose r]).
Proof.
  intros Hc Hl Hn Hp. unfold main. rewrite Hc.
  split.
  - intros s4 Hlogin. rewrite main_run_launch, Hl.
    apply (try_finally_close_log _ s1 s4 (Ret tt)).
    rewrite (main_launched_at_login _ _ s1 s2 s3 b Hn Hp).
    apply try_except_returned.
    now rewrite (bind_returned _ _ s3 s4 false Hlogin).
  - intros s4 s5 Hlogin Hsearch. rewrite main_run_launch, Hl.
    apply (try_finally_close_log _ s1 s5 (Ret tt)).
    rewrite (main_launched_at_login _ _ s1 s2 s3 b Hn Hp).
    apply try_except_returned.
    rewrite (bind_returned _ _ s3 s4 true Hlogin).
    unfold main_after_login.
    now rewrite (bind_returned _ _ s4 s5 false Hsearch).
Qed.

(** X17. With a browser whose screenshots and whose [close] always return,
    [main] always returns: whatever else raises, at whatever stage, the run
    ends without an exception. *)
Theorem main_returns_when_screenshots_and_close_return :
  (forall path (s : St W H), exists s', page_screenshot path s = (Ret tt, s')) ->
  (forall s : St W H, exists s', close s = (Ret tt, s')) ->
  forall FB_EMAIL FB_PASSWORD (s : St W H),
    exists s', main FB_EMAIL FB_PASSWORD s = (Ret tt, s').
Proof.
  intros Hshot Hclose FB_EMAIL FB_PASSWORD s. unfold main.
  destruct (load_credentials FB_EMAIL FB_PASSWORD)
    as [[fb_email fb_password] using_placeholders].
  rewrite main_run_launch.
  destruct (launch s) as [[[]|e] s1]; [|now exists s1].
  assert (Hbody : exists s2,
             main_launched fb_email fb_password s1 = (Ret tt, s2)).
  { unfold main_launched. unfold bind at 1. unfold try_except at 1.
    unfold bind at 1.
    destruct (new_page s1) as [[[]|e] s2]; [|eexists; reflexivity].
    cbv beta iota delta [ret]. unfold try_except.
    destruct (main_steps fb_email fb_password s2) as [[[]|e] s3];
      [eexists; reflexivity|].
    unfold main_handler.
    destruct e;
      match goal with
      | |- context [page_screenshot ?p s3] =>
          destruct (Hshot p s3) as [s4 ->]
      end; eexists; reflexivity. }
  destruct Hbody as [s2 Hbody]. unfold try_finally. rewrite Hbody.
  destruct (Hclose s2) as [s3 ->]. now exists s3.
Qed.

(** X18. When [FB_EMAIL] and [FB_PASSWORD] are both set and not empty,
    they are used as they are: once the launch, the new page, the prelude
    and the wait for the email field have returned, the run fills the email
    field with the value of [FB_EMAIL], and once that fill and the wait for
    the password field have returned, it fills the password field with the
    value of [FB_PASSWORD]. *)
Theorem set_credentials_reach_the_form (fb_email fb_password : string) :
  truthy fb_email = true ->
  truthy fb_password = true ->
  load_credentials (Some fb_email) (Some fb_password)
  = (fb_email, fb_password, false)
  /\ forall (s s1 s2 s3 s4 : St W H) (b : bool),
      launch s = (Ret tt, s1) ->
      new_page s1 = (Ret tt, s2) ->
      main_prelude s2 = (Ret b, s3) ->
      page_wait_for_selector email_selector s3 = (Ret tt, s4) ->
      (exists r rest,
          log (snd (main (Some fb_email) (Some fb_password) s))
          = log s4 ++ Called (CFill email_selector fb_email) r :: rest)
      /\ (forall s5 s6,
             page_fill email_selector fb_email s4 = (Ret tt, s5) ->
             page_wait_for_selector pass_selector s5 = (Ret tt, s6) ->
             exists r rest,
               log (snd (main (Some fb_email) (Some fb_password) s))
               = log s6
                 ++ Called (CFill pass_selector fb_password) r :: rest).
Proof.
  intros He Hp.
  assert (Hc : load_credentials (Some fb_email) (Some fb_password)
               = (fb_email, fb_password, false)).
  { unfold load_credentials, unset_or_empty. now rewrite He, Hp. }
  split; [exact Hc|].
  intros s s1 s2 s3 s4 b Hl Hn Hpre Hw. unfold main. rewrite Hc.
  destruct (main_run_reaches_login fb_email fb_password
              s s1 s2 s3 b Hl Hn Hpre) as [t E].
  destruct (login_body_fills fb_email fb_password s3 s4 Hw)
    as [[r [rest Er]] Hpass].
  split.
  - exists r, (rest ++ t). rewrite E, Er.
    now rewrite <- app_assoc, <- app_comm_cons.
  - intros s5 s6 Hf Hw2.
    destruct (Hpass s5 s6 Hf Hw2) as [r' [rest' Er']].
    exists r', (rest' ++ t). rewrite E, Er'.
    now rewrite <- app_assoc, <- app_comm_cons.
Qed.

End MainFurther.

(** Two cookie buttons.  With clicks that return, the loop stops at the
    first of them; with clicks that time out, it tries both, takes the error
    screenshot twice and ends with its flag unset. *)
Lemma cookie_loop_stops_at_a_click_and_survives_its_failure_witness :
  (fst (dismiss_cookie_banner false (tl cookie_banner_selectors)
                              (start scenario_cookies)) = Ret true
   /\ clicks (log (snd (dismiss_cookie_banner
                          false (tl cookie_banner_selectors)
                          (start scenario_cookies))))
      = [button "Allow all cookies"])
  /\ (fst (dismiss_cookie_banner (session := stubborn)
             false (tl cookie_banner_selectors) (start scenario_cookies))
      = Ret false
      /\ clicks (log (snd (dismiss_cookie_banner (session := stubborn)
                             false (tl cookie_banner_selectors)
                             (start scenario_cookies))))
         = [button "Allow all cookies";
            button "Allow essential and optional cookies"]).
Proof.
  pose (sel := "//button[contains(text(), 'Allow all cookies')]").
  pose (rest := tl (tl cookie_banner_selectors)).
  pose (b := button "Allow all cookies").
  pose (s := start scenario_cookies).
  split.
  - pose (s1 := snd (page_query_selector sel s)).
    pose (s2 := snd (el_is_visible b s1)).
    pose (s3 := snd (el_click b s2)).
    pose (s4 := snd (page_screenshot "cookie_consent_clicked.png" s3)).
    destruct (cookie_loop_stops_at_a_click_and_survives_its_failure
                false sel rest b s s1 s2) as [Hstop _];
      try (vm_compute; reflexivity).
    specialize (Hstop s3 s4 eq_refl eq_refl).
    change (tl cookie_banner_selectors) with (sel :: rest). fold s.
    rewrite Hstop. split; [reflexivity|vm_compute; reflexivity].
  - pose (s1 := snd (page_query_selector (session := stubborn) sel s)).
    pose (s2 := snd (el_is_visible (session := stubborn) b s1)).
    pose (s3 := snd (el_click (session := stubborn) b s2)).
    pose (s4 := snd (page_screenshot (session := stubborn)
                       "cookie_consent_click_error.png" s3)).
    destruct (cookie_loop_stops_at_a_click_and_survives_its_failure
                (session := stubborn) false sel rest b s s1 s2)
      as [_ [Hgo _]]; try (vm_compute; reflexivity).
    specialize (Hgo PlaywrightTimeoutError s3 s4 eq_refl eq_refl).
    change (tl cookie_banner_selectors) with (sel :: rest). fold s.
    rewrite Hgo. split; vm_compute; reflexivity.
Defined.

(** Scenario B under [main]: the login fails, and the trace of the run is
    the trace up to the end of the login followed by [browser.close()]. *)
Lemma failed_stage_is_followed_by_close_alone_witness :
  exists r,
    log (snd (main (Some "user@example.com") (Some "secret")
                   (start scenario_B)))
    = log (snd (login_to_facebook
                  "user@example.com" "secret"
                  (snd (main_prelude
                          (snd (new_page (snd (launch (start scenario_B))))))))
      ) ++ [Called CClose r].
Proof.
  pose (s := start scenario_B).
  pose (s1 := snd (launch s)).
  pose (s2 := snd (new_page s1)).
  pose (s3 := snd (main_prelude s2)).
  destruct (failed_stage_is_followed_by_close_alone
              (Some "user@example.com") (Some "secret")
              "user@example.com" "secret" false false s s1 s2 s3)
    as [Hfail _]; try (vm_compute; reflexivity).
  apply Hfail. vm_compute; reflexivity.
Defined.

(** A page on which nothing is found, with a browser whose screenshots
    return: the run returns. *)
Lemma main_returns_when_screenshots_and_close_return_witness :
  exists s',
    main (session := reliable) None None (start scenario_no_snapshot)
    = (Ret tt, s').
Proof.
  apply (main_returns_when_screenshots_and_close_return
           (session := reliable)).
  - intros path s. eexists. reflexivity.
  - intros s. eexists. reflexivity.
Defined.

(** Both variables are set: the run on the login form of scenario B fills
    the two fields with their values. *)
Lemma set_credentials_reach_the_form_witness :
  load_credentials (Some "user@example.com") (Some "secret")
  = ("user@example.com", "secret", false)
  /\ (exists r,
         In (Called (CFill email_selector "user@example.com") r)
            (log (snd (main (Some "user@example.com") (Some "secret")
                            (start scenario_B)))))
  /\ (exists r,
         In (Called (CFill pass_selector "secret") r)
            (log (snd (main (Some "user@example.com") (Some "secret")
                            (start scenario_B))))).
Proof.
  pose (s := start scenario_B).
  pose (s1 := snd (launch s)).
  pose (s2 := snd (new_page s1)).
  pose (s3 := snd (main_prelude s2)).
  pose (s4 := snd (page_wait_for_selector email_selector s3)).
  pose (s5 := snd (page_fill email_selector "user@example.com" s4)).
  pose (s6 := snd (page_wait_for_selector pass_selector s5)).
  destruct (set_credentials_reach_the_form
              "user@example.com" "secret" eq_refl eq_refl)
    as [Hc Hrun].
  destruct (Hrun s s1 s2 s3 s4 false) as [[r [rest E]] Hpass];
    try (vm_compute; reflexivity).
  destruct (Hpass s5 s6) as [r' [rest' E']];
    try (vm_compute; reflexivity).
  split; [exact Hc|]. split.
  - exists r. fold s. rewrite E. apply in_or_app. right. now left.
  - exists r'. fold s. rewrite E'. apply in_or_app. right. now left.
Defined.

(** ** [extract_recent_posts]: which texts are read *)

Section TextsRead.

Context {W H : Type} {session : Session W H}.

Lemma texts_read_app (t1 t2 : list (Event H)) :
  texts_read (t1 ++ t2) = texts_read t1 ++ texts_read t2.
Proof. unfold texts_read. apply flat_map_app. Qed.

Lemma probe_only_reads_no_text (trace : list (Event H)) :
  Forall probe_only trace -> texts_read trace = [].
Proof.
  induction 1 as [|ev t Hev _ IH]; [reflexivity|].
  unfold texts_read in *. simpl. rewrite IH.
  destruct ev as [[] r|]; simpl in *; try reflexivity; destruct Hev.
Qed.

Lemma find_post_elements_probe_only (selectors : list string) :
  emits probe_only (find_post_elements selectors).
Proof.
  induction selectors as [|selector rest IH]; simpl.
  - apply emits_ret.
  - apply emits_bind; [apply probe_selector_probe_only|].
    intros [|el els]; [exact IH|apply emits_ret].
Qed.

Lemma read_texts_log (els : list H) :
  forall s : St W H,
    texts_read (log (snd (read_texts els s))) = texts_read (log s) ++ els.
Proof.
  induction els as [|el rest IH]; intros s; simpl.
  - now rewrite app_nil_r.
  - destruct (el_inner_text el s) as [r s1] eqn:Hr.
    specialize (IH s1). destruct (read_texts rest s1) as [rs s2].
    simpl in *. rewrite IH. apply invoke_log in Hr.
    rewrite Hr, texts_read_app. simpl. now rewrite <- app_assoc.
Qed.

(** X19. Once containers have resolved, a call of [extract_recent_posts]
    reads the text of the first [count] of them, each once and in the order
    of the page, and the text of no other element; this holds however the
    reads and the closing screenshot end. *)
Theorem extract_reads_each_of_the_first_count_once
        (count : Z) (s s1 : St W H) (els : list H) :
  find_post_elements post_container_selectors s = (Ret els, s1) ->
  els <> [] ->
  texts_read (log (snd (extract_recent_posts count s)))
  = texts_read (log s) ++ firstn (Z.to_nat count) els.
Proof.
  intros Hf Hne.
  destruct (find_post_elements_probe_only post_container_selectors s)
    as [t [E F]].
  rewrite Hf in E. simpl in E.
  rewrite (extract_recent_posts_after_loop count s s1 els Hf).
  destruct els as [|el rest]; [congruence|].
  rewrite scan_posts_spec, Z.sub_0_r.
  pose proof (read_texts_log (firstn (Z.to_nat count) (el :: rest)) s1)
    as Hread.
  destruct (read_texts _ s1) as [rs s2]. simpl in Hread.
  assert (Hs2 : texts_read (log s2)
                = texts_read (log s)
                  ++ firstn (Z.to_nat count) (el :: rest)).
  { rewrite Hread, E, texts_read_app.
    now rewrite (probe_only_reads_no_text t F), app_nil_r. }
  destruct (page_screenshot "post_extraction_attempt_done.png" s2)
    as [r s3] eqn:Hshot.
  pose proof (page_screenshot_log _ s2 s3 r Hshot) as E3.
  assert (Hs3 : texts_read (log s3) = texts_read (log s2)).
  { rewrite E3, texts_read_app. simpl. now rewrite app_nil_r. }
  destruct r as [[]|e]; simpl; now rewrite Hs3, Hs2.
Qed.

End TextsRead.

(** Scenario C: of the five containers, the texts of the first three are
    read, in order. *)
Lemma extract_reads_each_of_the_first_count_once_witness :
  texts_read (log (snd (extract_recent_posts 3 (start scenario_C))))
  = [post item1; post item2; post item3].
Proof.
  exact (extract_reads_each_of_the_first_count_once
           3 (start scenario_C)
           (snd (find_post_elements post_container_selectors
                   (start scenario_C)))
           [post item1; post item2; post item3; post item4; post item5]
           eq_refl ltac:(discriminate)).
Defined.

(** ** One click, one key *)

Section AtMost.

Context {W H : Type} {session : Session W H}.

Context {X : Type} (f : Event H -> list X).

Lemma at_most_quiet {A} (m : M W H A) :
  emits (fun ev => f ev = []) m -> at_most f 0 m.
Proof.
  intros Hm s. destruct (Hm s) as [trace [E F]]. exists trace.
  split; [exact E|].
  assert (Hnil : flat_map f trace = []).
  { clear E. induction F as [|ev t Hev _ IH]; [reflexivity|].
    simpl. now rewrite Hev, IH. }
  rewrite Hnil. simpl. lia.
Qed.

Lemma at_most_weaken {A} (a b : nat) (m : M W H A) :
  (a <= b)%nat -> at_most f a m -> at_most f b m.
Proof.
  intros Hab Hm s. destruct (Hm s) as [trace [E L]]. exists trace.
  split; [exact E|lia].
Qed.

Lemma at_most_invoke {A} (c : Call H) (op : W -> outcome A * W) :
  (forall r, length (f (Called c r)) <= 1)%nat ->
  at_most f 1 (invoke c op).
Proof.
  intros Hc s. unfold invoke. destruct (op (world s)) as [r w'].
  exists [Called c (status r)]. split; [reflexivity|].
  simpl. rewrite app_nil_r. apply Hc.
Qed.

Lemma at_most_bind {A B} (a b : nat) (m : M W H A) (k : A -> M W H B) :
  at_most f a m -> (forall x, at_most f b (k x)) ->
  at_most f (a + b) (bind m k).
Proof.
  intros Hm Hk s. unfold bind. destruct (Hm s) as [t1 [E1 L1]].
  destruct (m s) as [[x|e] s1]; simpl in E1.
  - destruct (Hk x s1) as [t2 [E2 L2]]. exists (t1 ++ t2).
    split; [now rewrite E2, E1, app_assoc|].
    rewrite flat_map_app, length_app. lia.
  - exists t1. simpl. split; [exact E1|lia].
Qed.

Lemma at_most_try_except {A} (a b : nat) (body : M W H A)
      (handler : exn -> M W H A) :
  at_most f a body -> (forall e, at_most f b (handler e)) ->
  at_most f (a + b) (try_except body handler).
Proof.
  intros Hm Hk s. unfold try_except. destruct (Hm s) as [t1 [E1 L1]].
  destruct (body s) as [[x|e] s1]; simpl in E1.
  - exists t1. simpl. split; [exact E1|lia].
  - destruct (Hk e s1) as [t2 [E2 L2]]. exists (t1 ++ t2).
    split; [now rewrite E2, E1, app_assoc|].
    rewrite flat_map_app, length_app. lia.
Qed.

End AtMost.

(** Settles [emits (fun ev => f ev = []) m] for calls that [f] leaves out. *)
Ltac emits_quiet :=
  repeat first
    [ apply emits_invoke; intros; reflexivity
    | apply emits_warn; reflexivity
    | emits_step ].

Section OneClick.

Context {W H : Type} {session : Session W H}.

Lemma found_and_visible_quiet {X} (f : Event H -> list X) (el : option H) :
  (forall el r, f (Called (CIsVisible el) r) = []) ->
  emits (fun ev => f ev = []) (found_and_visible el).
Proof.
  intros Hf. unfold found_and_visible, el_is_visible.
  destruct el; [apply emits_invoke; intros; apply Hf|apply emits_ret].
Qed.

Lemma click_login_button_one_click (selectors : list string) :
  at_most clicked_by 1 (click_login_button selectors).
Proof.
  induction selectors as [|selector rest IH]; simpl.
  - apply (at_most_weaken _ 0 1); [lia|]. apply at_most_quiet, emits_ret.
  - apply (at_most_bind _ 0 1).
    { apply at_most_quiet. unfold page_query_selector. emits_quiet. }
    intros button0. apply (at_most_bind _ 0 1).
    { apply at_most_quiet, found_and_visible_quiet. reflexivity. }
    intros visible. destruct button0 as [button0|]; [|exact IH].
    destruct visible; [|exact IH].
    apply (at_most_bind _ 1 0).
    + unfold el_click. apply at_most_invoke. intros r. simpl. lia.
    + intros _. apply at_most_quiet, emits_ret.
Qed.

(** X20. A call of [login_to_facebook] clicks at most one element: the
    button loop stops at its first click, and nothing else in the stage
    clicks. *)
Theorem login_clicks_at_most_once (email password : string) (s : St W H) :
  exists trace,
    log (snd (login_to_facebook email password s)) = log s ++ trace
    /\ (length (clicks trace) <= 1)%nat.
Proof.
  revert s. change (at_most clicked_by 1 (login_to_facebook email password)).
  unfold login_to_facebook.
  apply (at_most_try_except _ 1 0).
  - unfold login_body. apply (at_most_bind _ 1 0).
    + unfold login_fill_and_submit.
      apply (at_most_bind _ 0 1);
        [apply at_most_quiet; unfold page_wait_for_selector; emits_quiet|].
      intros _. apply (at_most_bind _ 0 1);
        [apply at_most_quiet; unfold page_fill; emits_quiet|].
      intros _. apply (at_most_bind _ 0 1);
        [apply at_most_quiet; unfold page_wait_for_selector; emits_quiet|].
      intros _. apply (at_most_bind _ 0 1);
        [apply at_most_quiet; unfold page_fill; emits_quiet|].
      intros _. apply click_login_button_one_click.
    + intros found. apply at_most_quiet.
      unfold login_check, email_still_visible, page_screenshot,
        page_wait_for_timeout, page_query_selector, el_is_visible.
      emits_quiet.
  - intros e. apply at_most_quiet.
    unfold login_handler, page_screenshot. emits_quiet.
Qed.

Lemma search_fill_and_submit_one_click (keyword selector : string) (el : H) :
  at_most clicked_by 1 (search_fill_and_submit keyword selector el).
Proof.
  unfold search_fill_and_submit.
  apply (at_most_bind _ 0 1);
    [apply at_most_quiet; unfold el_tag_name; emits_quiet|].
  intros tag. apply (at_most_bind _ 1 0).
  - destruct (String.eqb tag "input").
    + apply (at_most_weaken _ 0 1); [lia|]. apply at_most_quiet.
      unfold el_fill. emits_quiet.
    + apply (at_most_bind _ 1 0).
      * unfold el_click. apply at_most_invoke. intros r. simpl. lia.
      * intros _. apply at_most_quiet.
        unfold page_wait_for_timeout, page_fill. emits_quiet.
  - intros field. apply at_most_quiet.
    unfold page_screenshot, page_press. emits_quiet.
Qed.

Lemma search_fill_and_submit_one_press (keyword selector : string) (el : H) :
  at_most pressed_by 1 (search_fill_and_submit keyword selector el).
Proof.
  unfold search_fill_and_submit.
  apply (at_most_bind _ 0 1);
    [apply at_most_quiet; unfold el_tag_name; emits_quiet|].
  intros tag. apply (at_most_bind _ 0 1).
  - apply at_most_quiet.
    unfold el_fill, el_click, page_wait_for_timeout, page_fill.
    emits_quiet.
  - intros field. apply (at_most_bind _ 0 1).
    + apply at_most_quiet. unfold page_screenshot. emits_quiet.
    + intros _. unfold page_press. apply at_most_invoke.
      intros r. simpl. lia.
Qed.

Lemma search_interact_once {X} (f : Event H -> list X) (keyword : string)
      (selectors : list string) :
  (forall selector r, f (Called (CQuerySelector selector) r) = []) ->
  (forall el r, f (Called (CIsVisible el) r) = []) ->
  (forall selector el,
      at_most f 1 (search_fill_and_submit keyword selector el)) ->
  at_most f 1 (search_interact keyword selectors).
Proof.
  intros Hq Hv Hfill.
  induction selectors as [|selector rest IH]; simpl.
  - apply (at_most_weaken _ 0 1); [lia|]. apply at_most_quiet, emits_ret.
  - apply (at_most_bind _ 0 1).
    { apply at_most_quiet. unfold page_query_selector.
      apply emits_invoke. intros r. apply Hq. }
    intros trigger. apply (at_most_bind _ 0 1).
    { apply at_most_quiet, found_and_visible_quiet. exact Hv. }
    intros visible. destruct trigger as [trigger|]; [|exact IH].
    destruct visible; [|exact IH].
    apply (at_most_bind _ 1 0); [apply Hfill|].
    intros _. apply at_most_quiet, emits_ret.
Qed.

Lemma search_facebook_once {X} (f : Event H -> list X) (keyword : string) :
  at_most f 1 (search_interact keyword search_trigger_selectors) ->
  (forall ms r, f (Called (CWaitForTimeout ms) r) = []) ->
  (forall path r, f (Called (CScreenshot path) r) = []) ->
  (forall r, f (Called CTitle r) = []) ->
  f SearchWarning = [] ->
  at_most f 1 (search_facebook keyword).
Proof.
  intros Hi Hw Hs Ht Hwarn. unfold search_facebook.
  apply (at_most_try_except _ 1 0).
  - unfold search_body. apply (at_most_bind _ 1 0); [exact Hi|].
    intros done. apply at_most_quiet.
    unfold search_after_submit, search_soft_validation,
      page_wait_for_timeout, page_screenshot, page_title.
    repeat first
      [ apply emits_invoke; intros; first [apply Hw|apply Hs|apply Ht]
      | apply emits_warn; exact Hwarn
      | emits_step ].
  - intros e. apply at_most_quiet. unfold search_handler, page_screenshot.
    repeat first [ apply emits_invoke; intros; apply Hs | emits_step ].
Qed.

(** X21. A call of [search_facebook] clicks at most one element and
    presses at most one key: the trigger loop stops at the first affordance
    it acts on. *)
Theorem search_clicks_and_submits_at_most_once
        (keyword : string) (s : St W H) :
  exists trace,
    log (snd (search_facebook keyword s)) = log s ++ trace
    /\ (length (clicks trace) <= 1)%nat
    /\ (length (presses trace) <= 1)%nat.
Proof.
  assert (Hc : at_most clicked_by 1 (search_facebook keyword)).
  { apply search_facebook_once; try reflexivity.
    apply search_interact_once; try reflexivity.
    apply search_fill_and_submit_one_click. }
  assert (Hp : at_most pressed_by 1 (search_facebook keyword)).
  { apply search_facebook_once; try reflexivity.
    apply search_interact_once; try reflexivity.
    apply search_fill_and_submit_one_press. }
  destruct (Hc s) as [t1 [E1 L1]]. destruct (Hp s) as [t2 [E2 L2]].
  assert (t2 = t1) by (rewrite E1 in E2; now apply app_inv_head in E2).
  subst t2. exists t1. repeat split; assumption.
Qed.

End OneClick.

(** ** [search_facebook] with handles that have no [tag_name] *)

Section NoTagName.

Context {W H : Type} {session : Session W H}.

Lemma search_fill_and_submit_reads_the_tag
      (keyword selector : string) (el : H) (s s' : St W H) :
  search_fill_and_submit keyword selector el s = (Ret tt, s') ->
  exists tag s1, el_tag_name el s = (Ret tag, s1).
Proof.
  intros Hf. unfold search_fill_and_submit in Hf. unfold bind at 1 in Hf.
  destruct (el_tag_name el s) as [[tag|e] s1]; [|discriminate].
  now exists tag, s1.
Qed.

Lemma search_interact_reads_a_tag (keyword : string)
      (selectors : list string) :
  forall s s' : St W H,
    search_interact keyword selectors s = (Ret true, s') ->
    exists el s0 tag s1, el_tag_name el s0 = (Ret tag, s1).
Proof.
  induction selectors as [|selector rest IH]; intros s s' Hs; simpl in Hs;
    [discriminate|].
  unfold bind at 1 in Hs.
  destruct (page_query_selector selector s) as [[[el|]|e] s1];
    [| |discriminate].
  - unfold bind at 1 in Hs. simpl in Hs.
    destruct (el_is_visible el s1) as [[[]|e] s2]; [| |discriminate].
    + unfold bind in Hs.
      destruct (search_fill_and_submit keyword selector el s2)
        as [[[]|e] s3] eqn:Hf; [|discriminate].
      destruct (search_fill_and_submit_reads_the_tag _ _ _ _ _ Hf)
        as [tag [t Ht]].
      now exists el, s2, tag, t.
    + exact (IH s2 s' Hs).
  - unfold bind at 1 in Hs. simpl in Hs. exact (IH s1 s' Hs).
Qed.

(** X22. With element handles on which [tag_name] always raises (as it
    does on a handle that has no such method), [search_facebook] never
    returns [True]: past a visible affordance the first call is the read of
    its tag, so every run ends in a handler or without an affordance. *)
Theorem search_never_succeeds_without_tag_name :
  (forall (el : H) (s : St W H),
      exists e s', el_tag_name el s = (Raise e, s')) ->
  forall (keyword : string) (s : St W H),
    fst (search_facebook keyword s) <> Ret true.
Proof.
  intros Hno keyword s Htrue.
  destruct (search_facebook keyword s) as [r s'] eqn:Hr. simpl in Htrue.
  subst r. unfold search_facebook, try_except in Hr.
  destruct (search_body keyword s) as [[b|e] s0] eqn:Hb.
  - injection Hr as -> ->. unfold search_body in Hb.
    unfold bind at 1 in Hb.
    destruct (search_interact keyword search_trigger_selectors s)
      as [[[]|e] s1] eqn:Hi; [| |discriminate]; cbn [negb] in Hb.
    + destruct (search_interact_reads_a_tag _ _ _ _ Hi)
        as [el [t0 [tag [t1 Ht]]]].
      destruct (Hno el t0) as [e [t2 Hraise]]. congruence.
    + unfold bind in Hb.
      destruct (page_screenshot _ s1) as [[[]|e] s2]; discriminate.
  - unfold search_handler, bind in Hr.
    destruct e;
      match type of Hr with
      | context [page_screenshot ?p s0] =>
          destruct (page_screenshot p s0) as [[[]|e'] s2]
      end; discriminate.
Qed.

End NoTagName.

(** The scripted browser has such handles: on the page whose search field
    is visible the call does not return [True]. *)
Lemma search_never_succeeds_without_tag_name_witness :
  fst (search_facebook "Bkash" (start scenario_search)) <> Ret true.
Proof.
  apply (search_never_succeeds_without_tag_name (session := scripted)).
  intros el s. exists OtherException, (snd (el_tag_name el s)).
  reflexivity.
Defined.
